(** * mat-os memory management: page-table entries and the physical frame allocator

    A shallow embedding of [kernel/memory/paging.cpp] (the [PageTableEntry]
    accessors) and of [kernel/memory/allocator.cpp] ([PageBitmap], [init],
    [allocate_page], [free_page]), with the properties the specification
    states about them.

    Unsigned 64-bit values ([u64], [usize], [uptr]) are integers of [Z] with
    the wrap-around written out; the bitmap's [Span<u64>] is a list of words
    read and written by index. *)

From Stdlib Require Import ZArith Lia Bool.
From stdpp Require Import base option list.

Local Open Scope Z_scope.

(** ** Machine arithmetic *)

(** Conversion to [u64] (also [usize] and [uptr]): reduction modulo 2^64. *)
Definition u64 (z : Z) : Z := z mod 2 ^ 64.

(** Conversion to [u16]. *)
Definition u16 (z : Z) : Z := z mod 2 ^ 16.

(** [kernel::PAGE_SIZE]. *)
Definition PAGE_SIZE : Z := 4096.

(** The expression [1 << k] as the source writes it in [PageBitmap::get],
    [PageBitmap::set] and [PageTableEntry::get_bit]: the literal [1] is an
    [int], so the shift is a 32-bit signed shift whatever the type of [k] and
    of the variable the result is stored in.  For [k < 31] the result is
    [2^k]; for [k = 31] it is [INT_MIN] (C++20); for [k >= 32] the count
    reaches the width of [int] and the behaviour is undefined: [None]. *)
Definition shl_one_int (k : Z) : option Z :=
  if k <? 31 then Some (2 ^ k)
  else if k =? 31 then Some (- 2 ^ 31)
  else None.

(** Modelled from the spec: [mat::math::bit_mask<u64>(n)] ([stl/math.hpp] is
    not among the sources).  The spec places the available bits at 8-11 and
    52-62, which [set_available] clears with [bit_mask(4) << 8] and
    [bit_mask(11) << 52]: [bit_mask n] has the [n] low bits set. *)
Definition bit_mask (n : Z) : Z := Z.ones n.

(** Modelled from the spec: [mat::math::set_bit(x, idx, value)]
    ([stl/math.hpp] is not among the sources).  "Bit getters/setters operate
    on exactly one bit each; setters must read-modify-write without
    disturbing other bits." *)
Definition math_set_bit (x idx : Z) (value : bool) : Z :=
  if value then Z.lor x (u64 (Z.shiftl 1 idx))
  else Z.land x (u64 (Z.lnot (Z.shiftl 1 idx))).

(** Modelled from the spec: [mat::math::div_ceil(a, b)] ([stl/math.hpp] is
    not among the sources): "compute how many whole pages that occupies". *)
Definition div_ceil (a b : Z) : Z := (a + b - 1) / b.

(** ** Page table entries ([paging.cpp]) *)

Module PTE.

(** [class PageTableEntry { u64 m_value; ... }]. *)
Record PageTableEntry : Type := Entry { m_value : Z }.

(** [return m_value & (1 << idx);] converted to [bool]. *)
Definition get_bit (e : PageTableEntry) (idx : Z) : option bool :=
  match shl_one_int idx with
  | Some m => Some (negb (Z.land (m_value e) (u64 m) =? 0))
  | None => None
  end.

(** [mat::math::set_bit(m_value, idx, value);] *)
Definition set_bit (e : PageTableEntry) (idx : Z) (value : bool) : PageTableEntry :=
  Entry (math_set_bit (m_value e) idx value).

(** [mask = ((u64(1) << 52) - 1) & ~((u64(1) << 12) - 1)] *)
Definition addr_mask : Z :=
  Z.land (Z.shiftl 1 52 - 1) (u64 (Z.lnot (Z.shiftl 1 12 - 1))).

(** [PageTableEntry::addr]; a [PhysicalAddress] is its [uptr] value. *)
Definition addr (e : PageTableEntry) : Z := Z.land (m_value e) addr_mask.

(** [PageTableEntry::set_addr]:
    [m_value = (m_value & ~(bit_mask<u64>(48 - 12) << 12))
             | (value & ~bit_mask<u64>(12) & bit_mask<u64>(48));] *)
Definition set_addr (e : PageTableEntry) (value : Z) : PageTableEntry :=
  Entry (Z.lor
           (Z.land (m_value e) (u64 (Z.lnot (u64 (Z.shiftl (bit_mask (48 - 12)) 12)))))
           (Z.land (Z.land value (u64 (Z.lnot (bit_mask 12)))) (bit_mask 48))).

Definition is_present (e : PageTableEntry) := get_bit e 0.
Definition set_present (e : PageTableEntry) (value : bool) := set_bit e 0 value.

Definition is_writable (e : PageTableEntry) := get_bit e 1.
Definition set_writable (e : PageTableEntry) (value : bool) := set_bit e 1 value.

Definition is_user (e : PageTableEntry) := get_bit e 2.
Definition set_user (e : PageTableEntry) (value : bool) := set_bit e 2 value.

Definition is_ps (e : PageTableEntry) := get_bit e 7.
Definition set_ps (e : PageTableEntry) (value : bool) := set_bit e 7 value.

Definition is_execution_disabled (e : PageTableEntry) := get_bit e 63.
Definition set_execution_disabled (e : PageTableEntry) (value : bool) :=
  set_bit e 63 value.

(** [return (value() >> 47 & 0b1111111111100000) | (value() >> 7 & 0b11110);]
    ([>>] binds tighter than [&]); the result is a [u16]. *)
Definition get_available (e : PageTableEntry) : Z :=
  u16 (Z.lor (Z.land (Z.shiftr (m_value e) 47) 0xFFE0)
             (Z.land (Z.shiftr (m_value e) 7) 0x1E)).

(** [PageTableEntry::set_available(u16 value)]: two assignments,
    [m_value = (m_value & ~(bit_mask<u64>(4) << 8)) | ((u64(value) & 0b11110) << 7);]
    [m_value = (m_value & ~(bit_mask<u64>(11) << 52)) | (u64(value) >> 5 << 52);] *)
Definition set_available (e : PageTableEntry) (value : Z) : PageTableEntry :=
  let m1 := Z.lor (Z.land (m_value e) (u64 (Z.lnot (u64 (Z.shiftl (bit_mask 4) 8)))))
                  (u64 (Z.shiftl (Z.land (u64 value) 0x1E) 7)) in
  let m2 := Z.lor (Z.land m1 (u64 (Z.lnot (u64 (Z.shiftl (bit_mask 11) 52)))))
                  (u64 (Z.shiftl (Z.shiftr (u64 value) 5) 52)) in
  Entry m2.

(** [m_value = 0;] *)
Definition clear (e : PageTableEntry) : PageTableEntry := Entry 0.

(** The input rounded down to the nearest 4 KiB boundary. *)
Definition round_down_4k (p : Z) : Z := p - p mod PAGE_SIZE.

End PTE.

(** ** The boot protocol's answers ([limine.h]) *)

Module Limine.

(** The entry types [debug_print_memmap] names. *)
Inductive memmap_type : Type :=
| USABLE | RESERVED | ACPI_RECLAIMABLE | ACPI_NVS | BAD_MEMORY
| BOOTLOADER_RECLAIMABLE | KERNEL_AND_MODULES | FRAMEBUFFER.

(** [struct limine_memmap_entry { u64 base; u64 length; u64 type; }]. *)
Record memmap_entry : Type := Entry { base : Z; length : Z; type : memmap_type }.

(** [memmap_request.response] and [hhdm_request.response]: each is a null
    pointer ([None]) or the firmware's answer, the entries
    [entries[0 .. entry_count)] in order and the HHDM [offset]. *)
Record requests : Type := Requests {
  memmap_response : option (list memmap_entry);
  hhdm_response : option Z
}.

End Limine.

(** [entry->type == LIMINE_MEMMAP_USABLE] *)
Definition usable (e : Limine.memmap_entry) : bool :=
  match Limine.type e with Limine.USABLE => true | _ => false end.

(** ** The page bitmap ([allocator.cpp]) *)

Module PageBitmap.

(** [bits_per_element = sizeof(u64) * 8] *)
Definition bits_per_element : Z := 64.

(** [sizeof(ElementType)] *)
Definition sizeof_element : Z := 8.

(** [PageBitmap(address, byte_size)]: a span of [byte_size / sizeof(u64)]
    words.  The words are whatever the memory holds; [init] clears them
    before any is read, so the model starts them at 0. *)
Definition make (byte_size : Z) : list Z :=
  replicate (Z.to_nat (byte_size / sizeof_element)) 0.

(** [PageBitmap::get]: [None] where the source leaves the behaviour
    undefined, the shift of [shl_one_int] or an index past the span. *)
Definition get (m_data : list Z) (index : Z) : option bool :=
  let array_index := index / bits_per_element in
  let bit_index := index mod bits_per_element in
  match shl_one_int bit_index, m_data !! Z.to_nat array_index with
  | Some one, Some w =>
      let bit_mask := u64 one in
      Some (negb (Z.land w bit_mask =? 0))
  | _, _ => None
  end.

(** [PageBitmap::set] *)
Definition set (m_data : list Z) (index : Z) (value : bool) : option (list Z) :=
  let array_index := index / bits_per_element in
  let bit_index := index mod bits_per_element in
  match shl_one_int bit_index, m_data !! Z.to_nat array_index with
  | Some one, Some w =>
      let bit_mask := u64 one in
      Some (<[Z.to_nat array_index :=
                if value then Z.lor w bit_mask
                else Z.land w (u64 (Z.lnot bit_mask))]> m_data)
  | _, _ => None
  end.

(** [PageBitmap::clear] *)
Definition clear (m_data : list Z) : list Z := (λ _, 0) <$> m_data.

End PageBitmap.

(** ** The frame allocator ([allocator.cpp]) *)

(** The globals [hhdm_base] and [bitmap]. *)
Record kstate : Type := KState { hhdm_base : Z; bitmap : list Z }.

(** Both globals are zero-initialised: [hhdm_base = 0], [bitmap = PageBitmap()]. *)
Definition boot_state : kstate := KState 0 [].

(** How a call ends: it returns [a] in state [s]; it reaches [halt()], which
    never returns, in state [s]; or it runs into behaviour the source leaves
    undefined. *)
Inductive outcome (A : Type) : Type :=
| Ret (a : A) (s : kstate)
| Halted (s : kstate)
| Undefined.
Arguments Ret {A} a s.
Arguments Halted {A} s.
Arguments Undefined {A}.

(** Calls in sequence: the second runs only when the first returned. *)
Definition and_then {A B : Type} (r : outcome A) (k : A → kstate → outcome B)
  : outcome B :=
  match r with
  | Ret a s => k a s
  | Halted s => Halted s
  | Undefined => Undefined
  end.

(** [physical_address + hhdm_base] *)
Definition physical_to_virtual (s : kstate) (physical_address : Z) : Z :=
  u64 (physical_address + hhdm_base s).

(** [virtual_address - hhdm_base] *)
Definition virtual_to_physical (s : kstate) (virtual_address : Z) : Z :=
  u64 (virtual_address - hhdm_base s).

(** *** [init] *)

(** First loop of [init]: [usable_memory += entry->length] over the usable
    entries. *)
Definition usable_memory (entries : list Limine.memmap_entry) : Z :=
  fold_left (λ acc e, if usable e then u64 (acc + Limine.length e) else acc)
            entries 0.

(** [pages = usable_memory / PAGE_SIZE] *)
Definition pages (entries : list Limine.memmap_entry) : Z :=
  usable_memory entries / PAGE_SIZE.

(** [bitmap_array_size = pages / 8] *)
Definition bitmap_array_size (entries : list Limine.memmap_entry) : Z :=
  pages entries / 8.

(** [bitmap_page_size = div_ceil(bitmap_array_size, PAGE_SIZE)] *)
Definition bitmap_page_size (entries : list Limine.memmap_entry) : Z :=
  div_ceil (bitmap_array_size entries) PAGE_SIZE.

(** Second loop of [init]: the first usable entry at least
    [bitmap_array_size] bytes long hosts the bitmap.  The result is
    [(skipped_pages, bitmap_array_addr)], the address [0] ([nullptr]) when
    the loop ends without a [break]. *)
Fixpoint find_bitmap_region (s : kstate) (size : Z)
    (entries : list Limine.memmap_entry) (skipped_pages : Z) : Z * Z :=
  match entries with
  | [] => (skipped_pages, 0)
  | entry :: rest =>
      if usable entry then
        if size <=? Limine.length entry
        then (skipped_pages, physical_to_virtual s (Limine.base entry))
        else find_bitmap_region s size rest
               (u64 (skipped_pages + Limine.length entry / PAGE_SIZE))
      else find_bitmap_region s size rest skipped_pages
  end.

(** Third loop of [init]: [bitmap.set(i + skipped_pages, true)] for the [n]
    values of [i] from [i] on. *)
Fixpoint mark_bitmap_pages (n : nat) (i skipped_pages : Z) (m_data : list Z)
  : option (list Z) :=
  match n with
  | O => Some m_data
  | S n' =>
      match PageBitmap.set m_data (u64 (i + skipped_pages)) true with
      | Some m_data' => mark_bitmap_pages n' (i + 1) skipped_pages m_data'
      | None => None
      end
  end.

(** [kernel::alloc::init]; [debug_print_memmap] and [kdbgln] only write to
    the log and are left out. *)
Definition init (req : Limine.requests) (s : kstate) : outcome unit :=
  match Limine.memmap_response req, Limine.hhdm_response req with
  | Some entries, Some offset =>
      let s1 := KState offset (bitmap s) in
      let '(skipped_pages, bitmap_array_addr) :=
        find_bitmap_region s1 (bitmap_array_size entries) entries 0 in
      if bitmap_array_addr =? 0 then Halted s1
      else
        let m_data :=
          PageBitmap.clear (PageBitmap.make (bitmap_array_size entries)) in
        match mark_bitmap_pages (Z.to_nat (bitmap_page_size entries)) 0
                skipped_pages m_data with
        | Some m_data' => Ret tt (KState offset m_data')
        | None => Undefined
        end
  | _, _ => Halted s
  end.

(** *** [allocate_page] *)

(** The inner [for] of [allocate_page] over one usable entry, from the loop
    variable [size] on; the result is [(page_index, page_address)] when the
    loop is left, [None] when a bitmap read is undefined.  Every iteration
    that goes round reads a set bit at the next index, so the loop is left
    within [scan_fuel] iterations. *)
Fixpoint scan_region (fuel : nat) (m_data : list Z) (entry : Limine.memmap_entry)
    (size page_index page_address : Z) : option (Z * Z) :=
  match fuel with
  | O => None
  | S fuel' =>
      if size <=? Limine.length entry then
        match PageBitmap.get m_data page_index with
        | Some false => Some (page_index, u64 (Limine.base entry + size - PAGE_SIZE))
        | Some true =>
            scan_region fuel' m_data entry (u64 (size + PAGE_SIZE))
              (u64 (page_index + 1)) page_address
        | None => None
        end
      else Some (page_index, page_address)
  end.

(** One more than the bits the span holds, and one for the last test of the
    loop condition. *)
Definition scan_fuel (m_data : list Z) : nat := S (S (64 * length m_data)).

(** The outer [for] of [allocate_page]. *)
Fixpoint scan_entries (m_data : list Z) (entries : list Limine.memmap_entry)
    (page_index page_address : Z) : option (Z * Z) :=
  match entries with
  | [] => Some (page_index, page_address)
  | entry :: rest =>
      if usable entry then
        match scan_region (scan_fuel m_data) m_data entry PAGE_SIZE
                page_index page_address with
        | Some (page_index', page_address') =>
            if negb (page_address' =? 0) then Some (page_index', page_address')
            else scan_entries m_data rest page_index' page_address'
        | None => None
        end
      else scan_entries m_data rest page_index page_address
  end.

(** What [allocate_page] does after its loops, with their
    [(page_index, page_address)]. *)
Definition allocate_found (s : kstate) (found : option (Z * Z)) : outcome Z :=
  match found with
  | Some (page_index, page_address) =>
      if page_address =? 0 then Halted s
      else
        match PageBitmap.set (bitmap s) page_index true with
        | Some m_data' =>
            Ret (physical_to_virtual s page_address) (KState (hhdm_base s) m_data')
        | None => Undefined
        end
  | None => Undefined
  end.

(** [kernel::alloc::allocate_page]; the pointer it returns is its address.
    [memmap_request.response] is read without a null check. *)
Definition allocate_page (req : Limine.requests) (s : kstate) : outcome Z :=
  match Limine.memmap_response req with
  | Some entries => allocate_found s (scan_entries (bitmap s) entries 0 0)
  | None => Undefined
  end.

(** *** [free_page] *)

(** The loop of [free_page]: [(page_index, found)]. *)
Fixpoint find_page (entries : list Limine.memmap_entry)
    (page_address page_index : Z) : Z * bool :=
  match entries with
  | [] => (page_index, false)
  | entry :: rest =>
      if usable entry then
        if (Limine.base entry <=? page_address)
           && (page_address <? u64 (Limine.base entry + Limine.length entry))
        then (u64 (page_index
                   + u64 (page_address - Limine.base entry) / PAGE_SIZE), true)
        else find_page rest page_address
               (u64 (page_index + Limine.length entry / PAGE_SIZE))
      else find_page rest page_address page_index
  end.

(** [kernel::alloc::free_page] *)
Definition free_page (req : Limine.requests) (pointer : Z) (s : kstate)
  : outcome unit :=
  let address := pointer in
  if negb (address mod PAGE_SIZE =? 0) then Halted s
  else
    let page_address := virtual_to_physical s address in
    match Limine.memmap_response req with
    | Some entries =>
        let '(page_index, found) := find_page entries page_address 0 in
        if negb found then Halted s
        else
          match PageBitmap.set (bitmap s) page_index false with
          | Some m_data' => Ret tt (KState (hhdm_base s) m_data')
          | None => Undefined
          end
    | None => Undefined
    end.

(** ** Vocabulary of the properties *)

(** [n] calls of [allocate_page] in a row, with the pointers they return. *)
Fixpoint allocate_pages (req : Limine.requests) (n : nat) (s : kstate)
  : outcome (list Z) :=
  match n with
  | O => Ret [] s
  | S n' =>
      and_then (allocate_page req s) (λ p s1,
        and_then (allocate_pages req n' s1) (λ ps s2, Ret (p :: ps) s2))
  end.

(** The physical address lies inside a usable entry, by the test of
    [free_page]. *)
Definition inside_usable (entries : list Limine.memmap_entry) (page_address : Z)
  : bool :=
  existsb (λ e, usable e
                && (Limine.base e <=? page_address)
                && (page_address <? u64 (Limine.base e + Limine.length e)))
          entries.

(** The frame index [free_page] computes for a physical address. *)
Definition frame_index (entries : list Limine.memmap_entry) (page_address : Z) : Z :=
  (find_page entries page_address 0).1.

(** [skipped_pages] and [bitmap_array_addr] as the second loop of [init]
    leaves them, for the HHDM offset [offset]. *)
Definition skipped_pages (offset : Z) (entries : list Limine.memmap_entry) : Z :=
  (find_bitmap_region (KState offset []) (bitmap_array_size entries) entries 0).1.

Definition bitmap_array_addr (offset : Z) (entries : list Limine.memmap_entry) : Z :=
  (find_bitmap_region (KState offset []) (bitmap_array_size entries) entries 0).2.

(** Frames of the usable entries of a list, as [allocate_page] and
    [free_page] count them. *)
Definition frames_in (entries : list Limine.memmap_entry) : Z :=
  fold_right (λ e acc, if usable e then Limine.length e / PAGE_SIZE + acc else acc)
             0 entries.

(** The frames whose bit reads clear. *)
Definition free_frame_count (entries : list Limine.memmap_entry) (s : kstate) : nat :=
  length (filter (λ i, PageBitmap.get (bitmap s) i = Some false)
                 (seqZ 0 (frames_in entries))).

(** A usable region as the allocator takes it to be: base and length are
    multiples of the page size, the region lies above physical address 0
    (the not-found value of [allocate_page]) and ends inside the 64-bit
    address space. *)
Definition region_ok (e : Limine.memmap_entry) : bool :=
  (Limine.base e mod PAGE_SIZE =? 0)
  && (Limine.length e mod PAGE_SIZE =? 0)
  && (0 <? Limine.base e) && (0 <=? Limine.length e)
  && (Limine.base e + Limine.length e <? 2 ^ 64).

(** Two regions share no address. *)
Definition disjoint (e e' : Limine.memmap_entry) : bool :=
  (Limine.base e + Limine.length e <=? Limine.base e')
  || (Limine.base e' + Limine.length e' <=? Limine.base e).

(** Every usable entry is [region_ok], and no two usable entries overlap. *)
Fixpoint well_formed (entries : list Limine.memmap_entry) : bool :=
  match entries with
  | [] => true
  | e :: rest =>
      (negb (usable e)
       || (region_ok e && forallb (λ e', negb (usable e') || disjoint e e') rest))
      && well_formed rest
  end.

(** The words of a bitmap are [u64] values. *)
Definition words_ok (m_data : list Z) : bool :=
  forallb (λ w, (0 <=? w) && (w <? 2 ^ 64)) m_data.

(** The HHDM offset is a page-aligned [u64]. *)
Definition hhdm_ok (offset : Z) : bool :=
  (0 <=? offset) && (offset <? 2 ^ 64) && (offset mod PAGE_SIZE =? 0).

(** *** Concrete boots *)

(** The HHDM offset of a boot without KASLR. *)
Definition higher_half : Z := 0xffff800000000000.

(** One usable region of exactly 64 pages at 1 MiB, between two entries that
    are not usable. *)
Definition region64 : Limine.memmap_entry :=
  Limine.Entry 0x100000 (64 * PAGE_SIZE) Limine.USABLE.

Definition boot64 : Limine.requests :=
  Limine.Requests
    (Some [Limine.Entry 0 0x100000 Limine.RESERVED;
           region64;
           Limine.Entry 0x140000 0x10000 Limine.KERNEL_AND_MODULES])
    (Some higher_half).

(** One usable region of 9 pages. *)
Definition memmap9 : list Limine.memmap_entry :=
  [Limine.Entry 0x100000 (9 * PAGE_SIZE) Limine.USABLE].

Definition boot9 : Limine.requests :=
  Limine.Requests (Some memmap9) (Some higher_half).

(** A usable region of 64 pages whose base is not a multiple of the page
    size. *)
Definition boot_misaligned : Limine.requests :=
  Limine.Requests
    (Some [Limine.Entry 0x100800 (64 * PAGE_SIZE) Limine.USABLE])
    (Some higher_half).

(** A usable page at physical address 0, then 63 usable pages at 1 MiB. *)
Definition boot_zero : Limine.requests :=
  Limine.Requests
    (Some [Limine.Entry 0 PAGE_SIZE Limine.USABLE;
           Limine.Entry 0x100000 (63 * PAGE_SIZE) Limine.USABLE])
    (Some higher_half).

(** Two usable regions that overlap: one page at 1 MiB, then 63 pages from
    the same base. *)
Definition boot_overlap : Limine.requests :=
  Limine.Requests
    (Some [Limine.Entry 0x100000 PAGE_SIZE Limine.USABLE;
           Limine.Entry 0x100000 (63 * PAGE_SIZE) Limine.USABLE])
    (Some higher_half).

(** ** Signedness traits of the integral types (the [stl] type-traits header) *)

Module Traits.

(** The types for which [concepts::integral] holds: the eight
    specialisations of [is_integral].  The aliases and variable templates
    below are constrained to them. *)
Inductive integral : Type := U8 | I8 | U16 | I16 | U32 | I32 | U64 | I64.

(** [STL_NS_IMPL::to_signed<T>::type]: the four specialisations, and the
    primary template for every other type. *)
Definition to_signed (t : integral) : integral :=
  match t with
  | U8 => I8
  | U16 => I16
  | U32 => I32
  | U64 => I64
  | _ => t
  end.

(** [STL_NS_IMPL::to_unsigned<T>::type] *)
Definition to_unsigned (t : integral) : integral :=
  match t with
  | I8 => U8
  | I16 => U16
  | I32 => U32
  | I64 => U64
  | _ => t
  end.

(** [is_same<T, V>]: true by the specialisation [is_same<T, T>] only. *)
Definition is_same (t v : integral) : bool :=
  match t, v with
  | U8, U8 | I8, I8 | U16, U16 | I16, I16
  | U32, U32 | I32, I32 | U64, U64 | I64, I64 => true
  | _, _ => false
  end.

(** [is_signed<Int> = is_same<Int, to_signed<Int>::type>] *)
Definition is_signed (t : integral) : bool := is_same t (to_signed t).

(** [is_unsigned<Int> = !is_signed<Int>] *)
Definition is_unsigned (t : integral) : bool := negb (is_signed t).

End Traits.

(** ** The gradient of [framebuffer::init] ([framebuffer.cpp]) *)

Module Framebuffer.

(** Conversion to [u8] and to [u32]. *)
Definition u8 (z : Z) : Z := z mod 2 ^ 8.
Definition u32 (z : Z) : Z := z mod 2 ^ 32.

(** [u8 blue = 255 - (x * (y + 400) >> 8 & 0xFF) / 2;] with [x] and [y] of
    type [usize]: the product and the sum wrap at 2^64, [>>] binds tighter
    than [&]. *)
Definition blue (x y : Z) : Z :=
  u8 (u64 (255 - Z.land (Z.shiftr (u64 (x * u64 (y + 400))) 8) 0xFF / 2)).

(** [u8 red = blue / 2;] *)
Definition red (x y : Z) : Z := u8 (blue x y / 2).

(** [u8 green = blue / 2;] *)
Definition green (x y : Z) : Z := u8 (blue x y / 2).

(** [u32 color = (red << 16) | (green << 8) | blue;] *)
Definition color (x y : Z) : Z :=
  u32 (Z.lor (Z.lor (Z.shiftl (red x y) 16) (Z.shiftl (green x y) 8)) (blue x y)).

End Framebuffer.

(** * Properties *)

(** ** Bit-level reasoning *)

Lemma u64_range (z : Z) : 0 <= u64 z < 2 ^ 64.
Proof. unfold u64. apply Z.mod_pos_bound. lia. Qed.

Lemma u64_small (z : Z) : 0 <= z < 2 ^ 64 -> u64 z = z.
Proof. intros H. unfold u64. apply Z.mod_small. exact H. Qed.

Lemma u64_add_l (a b : Z) : u64 (u64 a + b) = u64 (a + b).
Proof. unfold u64. apply Zplus_mod_idemp_l. Qed.

Lemma u64_add_r (a b : Z) : u64 (a + u64 b) = u64 (a + b).
Proof. unfold u64. apply Zplus_mod_idemp_r. Qed.

(** Bits of the operators, at any index. *)
Lemma testbit_shiftl (a n i : Z) :
  Z.testbit (Z.shiftl a n) i = (0 <=? i) && Z.testbit a (i - n).
Proof.
  destruct (Z.leb_spec 0 i) as [H|H]; simpl.
  - apply Z.shiftl_spec, H.
  - apply Z.testbit_neg_r, H.
Qed.

Lemma testbit_shiftr (a n i : Z) :
  Z.testbit (Z.shiftr a n) i = (0 <=? i) && Z.testbit a (i + n).
Proof.
  destruct (Z.leb_spec 0 i) as [H|H]; simpl.
  - apply Z.shiftr_spec, H.
  - apply Z.testbit_neg_r, H.
Qed.

Lemma testbit_lnot (a i : Z) :
  Z.testbit (Z.lnot a) i = (0 <=? i) && negb (Z.testbit a i).
Proof.
  destruct (Z.leb_spec 0 i) as [H|H]; simpl.
  - apply Z.lnot_spec, H.
  - apply Z.testbit_neg_r, H.
Qed.

Lemma testbit_u64 (a i : Z) : Z.testbit (u64 a) i = (i <? 64) && Z.testbit a i.
Proof. unfold u64. apply Z.testbit_mod_pow2. lia. Qed.

Lemma testbit_u16 (a i : Z) : Z.testbit (u16 a) i = (i <? 16) && Z.testbit a i.
Proof. unfold u16. apply Z.testbit_mod_pow2. lia. Qed.

Lemma testbit_bit_mask (n i : Z) :
  0 <= n -> Z.testbit (bit_mask n) i = (0 <=? i) && (i <? n).
Proof. apply Z.testbit_ones. Qed.

(** Rewrites a bit of a compound word into bits of its parts. *)
Ltac bits_of_ops :=
  repeat first
    [ rewrite Z.lor_spec | rewrite Z.land_spec
    | rewrite testbit_shiftl | rewrite testbit_shiftr | rewrite testbit_lnot
    | rewrite testbit_u64 | rewrite testbit_u16
    | rewrite testbit_bit_mask by lia
    | rewrite Z.testbit_ones by lia ].

(** Decides the comparisons of the goal that the context settles. *)
Ltac decide_comparisons :=
  repeat match goal with
    | |- context [?a <? ?b] =>
        first [ rewrite (proj2 (Z.ltb_lt a b)) by lia
              | rewrite (proj2 (Z.ltb_ge a b)) by lia ]
    | |- context [?a <=? ?b] =>
        first [ rewrite (proj2 (Z.leb_le a b)) by lia
              | rewrite (proj2 (Z.leb_gt a b)) by lia ]
    end.

(** Closes a goal between bits once the comparisons are decided. *)
Ltac same_bit :=
  rewrite ?andb_true_r, ?andb_false_r, ?orb_false_r, ?orb_true_r,
    ?andb_true_l, ?andb_false_l, ?orb_false_l, ?orb_true_l;
  cbn [andb orb negb];
  first [ reflexivity
        | (f_equal; lia)
        | (rewrite Z.testbit_neg_r by lia; reflexivity)
        | (symmetry; rewrite Z.testbit_neg_r by lia; reflexivity)
        | (destruct (Z.testbit _ _); reflexivity) ].

(** A bit of index [i] of both sides, with [i] in a known range. *)
Ltac bitwise := bits_of_ops; decide_comparisons; same_bit.

(** Splits the index [i] at the given bounds. *)
Ltac split_index i bounds :=
  lazymatch bounds with
  | nil => idtac
  | cons ?b ?rest => destruct (Z.lt_ge_cases i b); [ | split_index i rest ]
  end.

(** ** Page table entries *)

Section PageTableEntries.

Import PTE.

(** The constants of [get_available] as shifted masks. *)
Lemma mask_FFE0 : 0xFFE0 = Z.shiftl (Z.ones 11) 5.
Proof. reflexivity. Qed.

Lemma mask_1E : 0x1E = Z.shiftl (Z.ones 4) 1.
Proof. reflexivity. Qed.

Lemma mask_FFFE : 0xFFFE = Z.shiftl (Z.ones 15) 1.
Proof. reflexivity. Qed.

Lemma get_available_set_available (e : PageTableEntry) (v : Z) :
  get_available (set_available e v) = Z.land (u16 v) 0xFFFE.
Proof.
  unfold get_available, set_available. cbn [m_value].
  rewrite mask_FFE0, mask_1E, mask_FFFE.
  apply Z.bits_inj'. intros i Hi.
  split_index i [1; 5; 16]%list; bitwise.
Qed.

(** Where [set_available] stores the value: bits 1-4 of [v] in bits 8-11 of
    the entry, bits 5-15 of [v] in bits 52-62, every other bit of the entry
    as it was. *)
Lemma set_available_bits (e : PageTableEntry) (v i : Z) :
  0 <= v < 2 ^ 16 -> 0 <= m_value e < 2 ^ 64 -> 0 <= i ->
  Z.testbit (m_value (set_available e v)) i =
    if (8 <=? i) && (i <=? 11) then Z.testbit v (i - 7)
    else if (52 <=? i) && (i <=? 62) then Z.testbit v (i - 47)
    else Z.testbit (m_value e) i.
Proof.
  intros Hv He Hi.
  destruct e as [m]. cbn [m_value] in *.
  assert (Hm : m = u64 m) by (symmetry; apply u64_small; lia).
  assert (Hv' : v = u16 v) by (symmetry; apply Z.mod_small; lia).
  unfold set_available. cbn [m_value]. rewrite mask_1E, Hm, Hv'.
  split_index i [8; 12; 16; 52; 63; 64]%list; bitwise.
Qed.

(** C3, as the code has it: for every [u16] value [v], the 14-bit ones
    among them, [set_available(v)] followed by [get_available()] returns [v]
    with its lowest bit cleared (the bit is left out on purpose, bit 6 of an
    entry can be the Dirty bit), hence [v] itself when [v] is even; bits 1-4
    of [v] are stored in bits 8-11 of the entry and bits 5-15 in bits 52-62,
    and no other bit of the entry changes. *)
Theorem available_round_trip (e : PageTableEntry) (v : Z) :
  0 <= v < 2 ^ 16 -> 0 <= m_value e < 2 ^ 64 ->
  get_available (set_available e v) = Z.land v 0xFFFE
  /\ (Z.even v = true -> get_available (set_available e v) = v)
  /\ (forall i, 8 <= i <= 11 ->
        Z.testbit (m_value (set_available e v)) i = Z.testbit v (i - 7))
  /\ (forall i, 52 <= i <= 62 ->
        Z.testbit (m_value (set_available e v)) i = Z.testbit v (i - 47))
  /\ (forall i, 0 <= i -> ~ 8 <= i <= 11 -> ~ 52 <= i <= 62 ->
        Z.testbit (m_value (set_available e v)) i = Z.testbit (m_value e) i).
Proof.
  intros Hv He.
  assert (Hget : get_available (set_available e v) = Z.land v 0xFFFE).
  { rewrite get_available_set_available. unfold u16.
    rewrite Z.mod_small by lia. reflexivity. }
  split; [exact Hget|]. split; [|split; [|split]].
  - intros Heven. rewrite Hget, mask_FFFE.
    apply Z.bits_inj'. intros i Hi.
    rewrite <- (Z.mod_small v (2 ^ 16)) by lia. fold (u16 v).
    destruct (Z.eq_dec i 0) as [->|Hne].
    + rewrite Z.land_spec, testbit_u16, Z.bit0_odd, <- Z.negb_even, Heven.
      reflexivity.
    + split_index i [16]%list; bitwise.
  - intros i Hi. rewrite set_available_bits by lia.
    rewrite (proj2 (Z.leb_le 8 i)), (proj2 (Z.leb_le i 11)) by lia. reflexivity.
  - intros i Hi. rewrite set_available_bits by lia.
    rewrite (proj2 (Z.leb_le 52 i)), (proj2 (Z.leb_le i 62)) by lia.
    rewrite (proj2 (Z.leb_gt i 11)) by lia. rewrite andb_false_r. reflexivity.
  - intros i Hi H1 H2. rewrite set_available_bits by lia.
    destruct (Z.leb_spec 8 i), (Z.leb_spec i 11), (Z.leb_spec 52 i),
      (Z.leb_spec i 62); cbn [andb]; try reflexivity; lia.
Qed.

(** The theorem at the entry [0x8000000000000fff] and the value [0x2af6]. *)
Lemma available_round_trip_witness :
  get_available (set_available (Entry 0x8000000000000fff) 0x2af6) = 0x2af6.
Proof.
  apply (available_round_trip (Entry 0x8000000000000fff) 0x2af6);
    cbn [m_value]; [lia | lia | reflexivity].
Defined.

(** C3, as stated, fails at the 14-bit value 1 on the cleared entry: the
    value read back is 0. *)
Lemma available_odd_value_lost :
  get_available (set_available (Entry 0) 1) = 0.
Proof. reflexivity. Qed.

(** What [addr] reads after [set_addr]: bits 12-47 of the new address, and
    bits 48-51 of the entry as they were. *)
Lemma addr_set_addr (e : PageTableEntry) (p : Z) :
  addr (set_addr e p) =
    Z.lor (Z.land (m_value e) (Z.shiftl (Z.ones 4) 48))
          (Z.land p (Z.shiftl (Z.ones 36) 12)).
Proof.
  unfold addr, set_addr, addr_mask. cbn [m_value].
  replace (Z.shiftl 1 52 - 1) with (Z.ones 52) by reflexivity.
  replace (Z.shiftl 1 12 - 1) with (Z.ones 12) by reflexivity.
  replace (48 - 12) with 36 by reflexivity.
  apply Z.bits_inj'. intros i Hi.
  split_index i [12; 48; 52; 64]%list; bitwise.
Qed.

(** C4 at a failing input: on the cleared entry, [set_addr] of the 4 KiB
    aligned address [2^48], which is below the 52-bit limit, leaves [addr()]
    at 0; and on an entry with bit 50 set, [set_addr(0x1000)] leaves
    [addr()] at [2^50 + 0x1000]. *)
Theorem set_addr_keeps_48_bits :
  addr (set_addr (Entry 0) (2 ^ 48)) = 0
  /\ round_down_4k (2 ^ 48) = 2 ^ 48
  /\ addr (set_addr (Entry (2 ^ 50)) 0x1000) = 2 ^ 50 + 0x1000
  /\ round_down_4k 0x1000 = 0x1000.
Proof. repeat split; reflexivity. Qed.

(** A bit below 31 reads back as it was set. *)
Lemma get_bit_set_bit (e : PageTableEntry) (idx : Z) (v : bool) :
  0 <= idx < 31 -> get_bit (set_bit e idx v) idx = Some v.
Proof.
  intros Hidx. unfold get_bit, set_bit, math_set_bit, shl_one_int. cbn [m_value].
  rewrite (proj2 (Z.ltb_lt idx 31)) by lia. f_equal.
  rewrite Z.shiftl_1_l.
  destruct v.
  - destruct (Z.eqb_spec (Z.land (Z.lor (m_value e) (u64 (2 ^ idx))) (u64 (2 ^ idx))) 0)
      as [H0|H0]; [|reflexivity].
    exfalso. apply (f_equal (λ z, Z.testbit z idx)) in H0.
    rewrite Z.bits_0 in H0. revert H0.
    bits_of_ops. rewrite Z.pow2_bits_eqb, Z.eqb_refl by lia.
    rewrite (proj2 (Z.ltb_lt idx 64)) by lia. rewrite orb_true_r. discriminate.
  - replace (Z.land _ _) with 0; [reflexivity|].
    symmetry. apply Z.bits_inj'. intros i Hi. rewrite Z.bits_0.
    bits_of_ops. rewrite !Z.pow2_bits_eqb by lia.
    destruct (Z.eqb_spec idx i); cbn [negb]; rewrite ?andb_false_r; reflexivity.
Qed.

(** Setting a bit below 31 leaves the reading of every other such bit. *)
Lemma get_bit_set_bit_other (e : PageTableEntry) (idx idx' : Z) (v : bool) :
  0 <= idx < 31 -> 0 <= idx' < 31 -> idx <> idx' ->
  get_bit (set_bit e idx v) idx' = get_bit e idx'.
Proof.
  intros Hidx Hidx' Hne. unfold get_bit, set_bit, math_set_bit, shl_one_int.
  cbn [m_value]. rewrite (proj2 (Z.ltb_lt idx' 31)) by lia. do 3 f_equal.
  rewrite Z.shiftl_1_l.
  apply Z.bits_inj'. intros i Hi.
  destruct v; bits_of_ops; rewrite !Z.pow2_bits_eqb by lia;
    destruct (Z.eqb_spec idx' i), (Z.eqb_spec idx i); try lia;
    decide_comparisons; same_bit.
Qed.

(** The four flags below bit 31 read back as they were set, whatever the
    entry held. *)
Lemma low_flags_round_trip (e : PageTableEntry) (v : bool) :
  is_present (set_present e v) = Some v
  /\ is_writable (set_writable e v) = Some v
  /\ is_user (set_user e v) = Some v
  /\ is_ps (set_ps e v) = Some v.
Proof. repeat split; apply get_bit_set_bit; lia. Qed.

(** C6: for Present, Writable, User and PageSize the setter followed by
    the getter returns the value set, whatever the entry held.  For
    ExecutionDisabled the setter does set bit 63, but [is_execution_disabled]
    evaluates [1 << 63] on an [int], a shift by more than its width: what it
    returns after [set_execution_disabled(v)] is not defined, for every
    entry and every [v]. *)
Theorem execution_disabled_read_undefined (e : PageTableEntry) (v : bool) :
  is_present (set_present e v) = Some v
  /\ is_writable (set_writable e v) = Some v
  /\ is_user (set_user e v) = Some v
  /\ is_ps (set_ps e v) = Some v
  /\ is_execution_disabled (set_execution_disabled e v) = None
  /\ Z.testbit (m_value (set_execution_disabled (Entry 0) true)) 63 = true.
Proof.
  pose proof (low_flags_round_trip e v) as (H0 & H1 & H2 & H7).
  repeat split; try assumption; reflexivity.
Qed.

End PageTableEntries.

(** ** The page bitmap *)

Section Words.

(** What clearing and setting a mask does to the test of that mask. *)
Lemma land_lor_same (w k : Z) : Z.land (Z.lor w k) k = k.
Proof.
  apply Z.bits_inj'. intros i _. rewrite Z.land_spec, Z.lor_spec.
  destruct (Z.testbit w i), (Z.testbit k i); reflexivity.
Qed.

Lemma land_cleared_same (w k : Z) : Z.land (Z.land w (u64 (Z.lnot k))) k = 0.
Proof.
  apply Z.bits_inj'. intros i _. rewrite Z.bits_0. bits_of_ops.
  destruct (Z.testbit w i), (Z.testbit k i), (i <? 64), (0 <=? i); reflexivity.
Qed.

Lemma testbit_land_0 (w k i : Z) :
  Z.land w k = 0 -> Z.testbit k i = true -> Z.testbit w i = false.
Proof.
  intros H Hk. apply (f_equal (λ z, Z.testbit z i)) in H.
  rewrite Z.land_spec, Z.bits_0, Hk, andb_true_r in H. exact H.
Qed.

Lemma testbit_u64_high (w i : Z) :
  0 <= w < 2 ^ 64 -> 64 <= i -> Z.testbit w i = false.
Proof.
  intros Hw Hi. rewrite <- (u64_small w Hw), testbit_u64.
  rewrite (proj2 (Z.ltb_ge i 64)) by lia. reflexivity.
Qed.


Lemma clear_after_set_mask (w k : Z) :
  0 <= w < 2 ^ 64 -> Z.land w k = 0 -> Z.land (Z.lor w k) (u64 (Z.lnot k)) = w.
Proof.
  intros Hw H. apply Z.bits_inj'. intros i Hi. bits_of_ops.
  rewrite (proj2 (Z.leb_le 0 i)) by lia.
  destruct (Z.ltb_spec i 64).
  - destruct (Z.testbit k i) eqn:Hk; cbn [andb negb].
    + rewrite (testbit_land_0 w k i H Hk). reflexivity.
    + rewrite orb_false_r. apply andb_true_r.
  - rewrite (testbit_u64_high w i) by lia. apply andb_false_r.
Qed.

Lemma land_lor_nonzero (w k kx : Z) :
  Z.land w kx <> 0 -> Z.land (Z.lor w k) kx <> 0.
Proof.
  intros H H0. apply H. rewrite Z.land_lor_distr_l in H0.
  apply Z.lor_eq_0_iff in H0. tauto.
Qed.

(** The mask of a bit index is a [u64] that is not 0. *)
Lemma shl_one_int_mask (j one : Z) :
  0 <= j -> shl_one_int j = Some one -> 0 < u64 one < 2 ^ 64.
Proof.
  intros Hj. unfold shl_one_int.
  destruct (Z.ltb_spec j 31); [|destruct (Z.eqb_spec j 31); [|discriminate]].
  - intros [= <-].
    assert (0 < 2 ^ j) by (apply Z.pow_pos_nonneg; lia).
    assert (2 ^ j < 2 ^ 64) by (apply Z.pow_lt_mono_r; lia).
    rewrite u64_small; lia.
  - intros [= <-]. vm_compute. split; reflexivity.
Qed.

(** A word without bits from 64 on is its own [u64]. *)
Lemma u64_of_bits (x : Z) :
  (forall i, 64 <= i -> Z.testbit x i = false) -> 0 <= x < 2 ^ 64.
Proof.
  intros H. replace x with (u64 x); [apply u64_range|].
  apply Z.bits_inj'. intros i _. rewrite testbit_u64.
  destruct (Z.ltb_spec i 64); [reflexivity|].
  rewrite H by lia. reflexivity.
Qed.

Lemma lor_u64 (w k : Z) :
  0 <= w < 2 ^ 64 -> 0 <= k < 2 ^ 64 -> 0 <= Z.lor w k < 2 ^ 64.
Proof.
  intros Hw Hk. apply u64_of_bits. intros i Hi.
  rewrite Z.lor_spec, !testbit_u64_high by lia. reflexivity.
Qed.

Lemma land_u64 (w k : Z) : 0 <= w < 2 ^ 64 -> 0 <= Z.land w k < 2 ^ 64.
Proof.
  intros Hw. apply u64_of_bits. intros i Hi.
  rewrite Z.land_spec, (testbit_u64_high w) by lia. reflexivity.
Qed.

End Words.

Section Bitmap.

Import PageBitmap.

Lemma words_ok_lookup (m_data : list Z) (i : nat) (w : Z) :
  words_ok m_data = true -> m_data !! i = Some w -> 0 <= w < 2 ^ 64.
Proof.
  unfold words_ok. rewrite forallb_forall. intros H Hw.
  specialize (H w). rewrite <- list_elem_of_In in H.
  specialize (H (list_elem_of_lookup_2 _ _ _ Hw)). lia.
Qed.

(** A defined read names the mask and the word it tests. *)
Lemma get_Some (m_data : list Z) (index : Z) (b : bool) :
  get m_data index = Some b ->
  exists one w,
    shl_one_int (index mod 64) = Some one
    /\ m_data !! Z.to_nat (index / 64) = Some w
    /\ b = negb (Z.land w (u64 one) =? 0).
Proof.
  unfold get, bits_per_element.
  destruct (shl_one_int (index mod 64)) as [one|]; [|discriminate].
  destruct (m_data !! Z.to_nat (index / 64)) as [w|]; [|discriminate].
  intros [= <-]. eauto.
Qed.

(** A write is defined exactly where the read is. *)
Lemma set_defined (m_data : list Z) (index : Z) (b value : bool) :
  get m_data index = Some b -> is_Some (set m_data index value).
Proof.
  intros (one & w & Hone & Hw & _)%get_Some.
  unfold set, bits_per_element. rewrite Hone, Hw. eauto.
Qed.

(** Where a write is defined: the bit position is below 32 and the word is
    inside the span. *)
Lemma set_is_Some (m_data : list Z) (index : Z) (value : bool) :
  0 <= index -> index mod 64 < 32 -> index / 64 < Z.of_nat (length m_data) ->
  is_Some (set m_data index value).
Proof.
  intros Hi Hbit Hword. unfold set, bits_per_element.
  assert (Hone : is_Some (shl_one_int (index mod 64))).
  { unfold shl_one_int. destruct (Z.ltb_spec (index mod 64) 31); [eauto|].
    destruct (Z.eqb_spec (index mod 64) 31); [eauto|lia]. }
  destruct Hone as [one ->].
  assert (Hw : is_Some (m_data !! Z.to_nat (index / 64))).
  { apply lookup_lt_is_Some.
    assert (0 <= index / 64) by (apply Z.div_pos; lia). lia. }
  destruct Hw as [w ->]. eauto.
Qed.

Lemma set_length (m_data m_data' : list Z) (index : Z) (value : bool) :
  set m_data index value = Some m_data' -> length m_data' = length m_data.
Proof.
  unfold set.
  destruct (shl_one_int _); [|discriminate].
  destruct (m_data !! _); [|discriminate].
  intros [= <-]. apply length_insert.
Qed.

(** After [set(index, value)] the bit reads [value]. *)
Lemma get_set (m_data m_data' : list Z) (index : Z) (value : bool) :
  set m_data index value = Some m_data' -> get m_data' index = Some value.
Proof.
  unfold set, get, bits_per_element.
  destruct (shl_one_int (index mod 64)) as [one|] eqn:Hone; [|discriminate].
  destruct (m_data !! Z.to_nat (index / 64)) as [w|] eqn:Hw; [|discriminate].
  intros [= <-].
  rewrite list_lookup_insert_eq by (eapply lookup_lt_Some; exact Hw).
  f_equal.
  pose proof (shl_one_int_mask _ _ (Z.mod_pos _ 64 ltac:(lia)) Hone) as Hk.
  destruct value.
  - rewrite land_lor_same. destruct (Z.eqb_spec (u64 one) 0); [lia|reflexivity].
  - rewrite land_cleared_same. reflexivity.
Qed.

(** Setting a bit leaves set every bit that read set. *)
Lemma get_true_set_true (m_data m_data' : list Z) (index x : Z) :
  get m_data x = Some true -> set m_data index true = Some m_data' ->
  get m_data' x = Some true.
Proof.
  intros (onex & wx & Honex & Hwx & Hb)%get_Some.
  unfold set, get, bits_per_element.
  destruct (shl_one_int (index mod 64)) as [one|] eqn:Hone; [|discriminate].
  destruct (m_data !! Z.to_nat (index / 64)) as [w|] eqn:Hw; [|discriminate].
  intros [= <-]. rewrite Honex.
  destruct (decide (Z.to_nat (index / 64) = Z.to_nat (x / 64))) as [Heq|Hne].
  - rewrite Heq in Hw |- *. rewrite Hwx in Hw. injection Hw as <-.
    rewrite list_lookup_insert_eq by (eapply lookup_lt_Some; exact Hwx).
    f_equal. destruct (Z.eqb_spec (Z.land wx (u64 onex)) 0); [discriminate|].
    destruct (Z.eqb_spec (Z.land (Z.lor wx (u64 one)) (u64 onex)) 0) as [H0|];
      [|reflexivity].
    exfalso. eapply land_lor_nonzero; eassumption.
  - rewrite list_lookup_insert_ne by assumption. rewrite Hwx, Hb. reflexivity.
Qed.

(** Clearing the bit just set gives the bitmap back, when the bit read
    clear before. *)
Lemma set_false_after_set_true (m_data m_data' : list Z) (index : Z) :
  words_ok m_data = true ->
  get m_data index = Some false -> set m_data index true = Some m_data' ->
  set m_data' index false = Some m_data.
Proof.
  intros Hok (one & w & Hone & Hw & Hb)%get_Some.
  unfold set, bits_per_element. rewrite Hone, Hw. intros [= <-].
  rewrite list_lookup_insert_eq by (eapply lookup_lt_Some; exact Hw).
  rewrite list_insert_insert_eq. f_equal. apply list_insert_id.
  rewrite Hw. f_equal.
  destruct (Z.eqb_spec (Z.land w (u64 one)) 0) as [H0|]; [|discriminate].
  symmetry. apply clear_after_set_mask; [|exact H0].
  eapply words_ok_lookup; eassumption.
Qed.



(** [set] keeps the words in range. *)
Lemma set_words_ok (m_data m_data' : list Z) (index : Z) (value : bool) :
  words_ok m_data = true -> set m_data index value = Some m_data' ->
  words_ok m_data' = true.
Proof.
  intros Hok. unfold set, bits_per_element.
  destruct (shl_one_int (index mod 64)) as [one|] eqn:Hone; [|discriminate].
  destruct (m_data !! Z.to_nat (index / 64)) as [w|] eqn:Hw; [|discriminate].
  intros [= <-].
  pose proof (words_ok_lookup _ _ _ Hok Hw) as Hwr.
  pose proof (shl_one_int_mask _ _ (Z.mod_pos _ 64 ltac:(lia)) Hone) as Hk.
  unfold words_ok. rewrite forallb_forall. intros w' Hin.
  rewrite <- list_elem_of_In in Hin.
  apply list_elem_of_lookup_1 in Hin as [i Hi].
  assert (0 <= w' < 2 ^ 64); [|lia].
  destruct (decide (Z.to_nat (index / 64) = i)) as [<-|Hne].
  - rewrite list_lookup_insert_eq in Hi by (eapply lookup_lt_Some; exact Hw).
    injection Hi as <-.
    destruct value; [apply lor_u64; lia | apply land_u64; lia].
  - rewrite list_lookup_insert_ne in Hi by assumption.
    eapply words_ok_lookup; eassumption.
Qed.

End Bitmap.

(** ** [free_page] *)

Section FreePage.

Lemma find_page_found (entries : list Limine.memmap_entry) (pa i : Z) :
  (find_page entries pa i).2 = inside_usable entries pa.
Proof.
  revert i. induction entries as [|e rest IH]; intros i; [reflexivity|].
  cbn [find_page inside_usable existsb].
  destruct (usable e); cbn [andb orb].
  - destruct ((Limine.base e <=? pa)
              && (pa <? u64 (Limine.base e + Limine.length e))); cbn [orb].
    + reflexivity.
    + apply IH.
  - apply IH.
Qed.

(** For regions that end inside the address space the test is membership
    in the interval from [base] to [base + length]. *)
Lemma inside_usable_spec (entries : list Limine.memmap_entry) (pa : Z) :
  (forall e, e ∈ entries -> usable e = true ->
     0 <= Limine.base e + Limine.length e < 2 ^ 64) ->
  inside_usable entries pa = true
  <-> exists e, e ∈ entries /\ usable e = true
                /\ Limine.base e <= pa < Limine.base e + Limine.length e.
Proof.
  intros Hend. unfold inside_usable. rewrite existsb_exists. split.
  - intros (e & Hin & H). rewrite <- list_elem_of_In in Hin.
    apply andb_prop in H as [[Hu Hlo]%andb_prop Hhi].
    rewrite u64_small in Hhi by (apply Hend; assumption).
    exists e. repeat split; try assumption; lia.
  - intros (e & Hin & Hu & Hpa). exists e. rewrite <- list_elem_of_In.
    split; [exact Hin|]. rewrite Hu, u64_small by (apply Hend; assumption).
    cbn [andb]. apply andb_true_intro. split; lia.
Qed.

Lemma kstate_eta (s : kstate) : KState (hhdm_base s) (bitmap s) = s.
Proof. destruct s. reflexivity. Qed.

(** [free_page] on a page-aligned pointer inside a usable region is the
    write [bitmap.set(page_index, false)]. *)
Lemma free_page_inside (req : Limine.requests) (mm : list Limine.memmap_entry)
    (s : kstate) (p : Z) :
  Limine.memmap_response req = Some mm ->
  p mod PAGE_SIZE = 0 ->
  inside_usable mm (virtual_to_physical s p) = true ->
  free_page req p s =
    match PageBitmap.set (bitmap s) (frame_index mm (virtual_to_physical s p)) false with
    | Some m_data' => Ret tt (KState (hhdm_base s) m_data')
    | None => Undefined
    end.
Proof.
  intros Hmm Hal Hin. unfold free_page, frame_index. rewrite Hmm, Hal.
  cbn [Z.eqb negb].
  rewrite <- find_page_found with (i := 0) in Hin.
  destruct (find_page mm (virtual_to_physical s p) 0) as [idx found].
  cbn [fst snd] in *. rewrite Hin. reflexivity.
Qed.

Lemma find_page_nonneg (entries : list Limine.memmap_entry) (pa i : Z) :
  0 <= i -> 0 <= (find_page entries pa i).1.
Proof.
  revert i. induction entries as [|e rest IH]; intros i Hi; cbn [find_page].
  - exact Hi.
  - destruct (usable e); [|apply IH, Hi].
    destruct ((Limine.base e <=? pa)
              && (pa <? u64 (Limine.base e + Limine.length e))).
    + cbn [fst]. apply u64_range.
    + apply IH, u64_range.
Qed.

(** Clearing the mask of a bit position below 31 clears that bit of the
    word and no other. *)
Lemma clear_one_bit (w k : Z) :
  0 <= k < 31 -> Z.land w (u64 (Z.lnot (u64 (2 ^ k)))) = Z.clearbit (u64 w) k.
Proof.
  intros Hk. apply Z.bits_inj'. intros i Hi.
  rewrite Z.clearbit_eqb, Z.land_spec, !testbit_u64, testbit_lnot, testbit_u64,
    Z.pow2_bits_eqb by lia.
  destruct (Z.ltb_spec i 64), (Z.eqb_spec k i), (Z.leb_spec 0 i),
    (Z.testbit w i); cbn; try reflexivity; lia.
Qed.

(** C8: [free_page] halts exactly when the pointer is not page-aligned or
    its physical address lies in no usable entry, and it halts in the state
    it was called in, the bitmap untouched.  On any other pointer it goes on
    to [bitmap.set(page_index, false)], whose mask is [1 << bit_index] on an
    [int]: for a bit position below 31 it returns with that one bit of the
    word cleared and nothing else changed; at position 31 it returns with
    bits 31 to 63 of the word cleared, 33 frames at once; at positions 32 to
    63, and for a word past the span, what it does is not defined. *)
Theorem free_page_halts_or_clears (req : Limine.requests)
    (mm : list Limine.memmap_entry) (s : kstate) (p : Z) :
  Limine.memmap_response req = Some mm ->
  (free_page req p s = Halted s
   <-> (p mod PAGE_SIZE <> 0
        \/ inside_usable mm (virtual_to_physical s p) = false))
  /\ (forall s', free_page req p s = Halted s' -> s' = s)
  /\ (p mod PAGE_SIZE = 0 ->
      inside_usable mm (virtual_to_physical s p) = true ->
      free_page req p s =
        let page_index := frame_index mm (virtual_to_physical s p) in
        match bitmap s !! Z.to_nat (page_index / 64) with
        | Some w =>
            if page_index mod 64 <? 31 then
              Ret tt (KState (hhdm_base s)
                        (<[Z.to_nat (page_index / 64) :=
                             Z.clearbit (u64 w) (page_index mod 64)]> (bitmap s)))
            else if page_index mod 64 =? 31 then
              Ret tt (KState (hhdm_base s)
                        (<[Z.to_nat (page_index / 64) :=
                             Z.land w (Z.ones 31)]> (bitmap s)))
            else Undefined
        | None => Undefined
        end).
Proof.
  intros Hmm.
  destruct (Z.eq_dec (p mod PAGE_SIZE) 0) as [Hal|Hal].
  - destruct (inside_usable mm (virtual_to_physical s p)) eqn:Hin.
    + pose proof (free_page_inside req mm s p Hmm Hal Hin) as Hfree.
      split; [|split].
      * rewrite Hfree.
        destruct (PageBitmap.set (bitmap s)
                    (frame_index mm (virtual_to_physical s p)) false);
          (split; [discriminate | intros [H|H]; [contradiction | discriminate]]).
      * intros s'. rewrite Hfree.
        destruct (PageBitmap.set (bitmap s)
                    (frame_index mm (virtual_to_physical s p)) false); discriminate.
      * intros _ _. rewrite Hfree. cbv zeta.
        pose proof (find_page_nonneg mm (virtual_to_physical s p) 0 (Z.le_refl 0)) as H0.
        fold (frame_index mm (virtual_to_physical s p)) in H0.
        assert (Hk : 0 <= frame_index mm (virtual_to_physical s p) mod 64 < 64)
          by (apply Z.mod_pos_bound; lia).
        unfold PageBitmap.set, PageBitmap.bits_per_element, shl_one_int.
        destruct (bitmap s !! Z.to_nat (frame_index mm (virtual_to_physical s p) / 64))
          as [w|];
          destruct (Z.ltb_spec (frame_index mm (virtual_to_physical s p) mod 64) 31);
          [|destruct (Z.eqb_spec (frame_index mm (virtual_to_physical s p) mod 64) 31)
           |reflexivity
           |destruct (Z.eqb_spec (frame_index mm (virtual_to_physical s p) mod 64) 31);
            reflexivity].
        -- rewrite clear_one_bit by lia. reflexivity.
        -- reflexivity.
        -- reflexivity.
    + assert (Hfree : free_page req p s = Halted s).
      { unfold free_page. rewrite Hmm, Hal. cbn [Z.eqb negb].
        rewrite <- find_page_found with (i := 0) in Hin.
        destruct (find_page mm (virtual_to_physical s p) 0) as [idx found].
        cbn [snd] in Hin. rewrite Hin. reflexivity. }
      rewrite Hfree.
      split; [split; [right; reflexivity | reflexivity]|].
      split; [intros s' [= Hs']; subst s'; reflexivity|discriminate].
  - assert (Hfree : free_page req p s = Halted s).
    { unfold free_page. destruct (Z.eqb_spec (p mod PAGE_SIZE) 0); [contradiction|].
      reflexivity. }
    rewrite Hfree.
    split; [split; [left; exact Hal | reflexivity]|].
    split; [intros s' [= Hs']; subst s'; reflexivity|].
    intros H; contradiction.
Qed.

(** The theorem on [boot64], at a misaligned pointer, at frames 3, 31 and 40
    of the region with every frame of the word allocated: the misaligned
    pointer halts, frame 3 loses its bit alone, freeing frame 31 frees
    frames 31 to 63, and freeing frame 40 is not defined. *)
Lemma free_page_halts_or_clears_witness :
  free_page boot64 (higher_half + 0x100008) (KState higher_half [0xffffffffffffffff])
  = Halted (KState higher_half [0xffffffffffffffff])
  /\ free_page boot64 (higher_half + 0x103000) (KState higher_half [0xffffffffffffffff])
     = Ret tt (KState higher_half [0xfffffffffffffff7])
  /\ free_page boot64 (higher_half + 0x11f000) (KState higher_half [0xffffffffffffffff])
     = Ret tt (KState higher_half [0x7fffffff])
  /\ free_page boot64 (higher_half + 0x128000) (KState higher_half [0xffffffffffffffff])
     = Undefined.
Proof.
  split; [|split; [|split]].
  - apply (free_page_halts_or_clears boot64 _ (KState higher_half [0xffffffffffffffff])
             (higher_half + 0x100008) eq_refl).
    left. vm_compute. discriminate.
  - apply (free_page_halts_or_clears boot64 _ (KState higher_half [0xffffffffffffffff])
             (higher_half + 0x103000) eq_refl); reflexivity.
  - apply (free_page_halts_or_clears boot64 _ (KState higher_half [0xffffffffffffffff])
             (higher_half + 0x11f000) eq_refl); reflexivity.
  - apply (free_page_halts_or_clears boot64 _ (KState higher_half [0xffffffffffffffff])
             (higher_half + 0x128000) eq_refl); reflexivity.
Defined.



End FreePage.

(** ** [allocate_page] *)

Section AllocatePage.







(** C5 at a failing input: for 9 usable pages [init] sizes the bitmap at
    [9 / 8 = 1] byte where the ceiling is 2; the span of [u64] words made of
    that byte holds no word at all, and [init] itself writes bit 0 past it. *)
Theorem bitmap_array_size_rounds_down :
  pages memmap9 = 9
  /\ bitmap_array_size memmap9 = 1
  /\ div_ceil 9 8 = 2
  /\ PageBitmap.make (bitmap_array_size memmap9) = []
  /\ init boot9 boot_state = Undefined.
Proof. repeat split; reflexivity. Qed.

(** What a returning [allocate_page] did. *)
Lemma allocate_page_Ret (req : Limine.requests) (s s1 : kstate) (p : Z) :
  allocate_page req s = Ret p s1 ->
  exists mm pi pa m1,
    Limine.memmap_response req = Some mm
    /\ scan_entries (bitmap s) mm 0 0 = Some (pi, pa)
    /\ pa <> 0
    /\ PageBitmap.set (bitmap s) pi true = Some m1
    /\ p = physical_to_virtual s pa
    /\ s1 = KState (hhdm_base s) m1.
Proof.
  unfold allocate_page, allocate_found.
  destruct (Limine.memmap_response req) as [mm|]; [|discriminate].
  destruct (scan_entries (bitmap s) mm 0 0) as [[pi pa]|] eqn:Hscan; [|discriminate].
  destruct (Z.eqb_spec pa 0) as [|Hne]; [discriminate|].
  destruct (PageBitmap.set (bitmap s) pi true) as [m1|] eqn:Hset; [|discriminate].
  intros [= <- <-]. exists mm, pi, pa, m1. repeat split; try reflexivity; assumption.
Qed.

Lemma region_ok_inv (e : Limine.memmap_entry) :
  region_ok e = true ->
  Limine.base e mod 4096 = 0 /\ Limine.length e mod 4096 = 0
  /\ 0 < Limine.base e /\ 0 <= Limine.length e
  /\ Limine.base e + Limine.length e < 2 ^ 64.
Proof. unfold region_ok, PAGE_SIZE. lia. Qed.

Lemma well_formed_cons (e : Limine.memmap_entry) (rest : list Limine.memmap_entry) :
  well_formed (e :: rest) = true ->
  well_formed rest = true
  /\ (usable e = true ->
      region_ok e = true
      /\ forall e', e' ∈ rest -> usable e' = true -> disjoint e e' = true).
Proof.
  cbn [well_formed]. intros [He Hrest]%andb_prop. split; [exact Hrest|].
  intros Hu. rewrite Hu in He. cbn [negb orb] in He.
  apply andb_prop in He as [Hok Hall]. split; [exact Hok|].
  intros e' Hin Hu'. rewrite forallb_forall in Hall.
  specialize (Hall e'). rewrite <- list_elem_of_In in Hall.
  specialize (Hall Hin). rewrite Hu' in Hall. exact Hall.
Qed.

(** The inner loop over a well-formed region, entered at its page [j]: it
    is left at the end of the region with [page_address] as it was, or at
    the first page [k] whose bit reads clear. *)
Lemma scan_region_spec (fuel : nat) (m : list Z) (e : Limine.memmap_entry)
    (j pi pa0 pi' pa' : Z) :
  region_ok e = true -> 0 <= j -> PAGE_SIZE * j <= Limine.length e ->
  0 <= pi < 2 ^ 64 ->
  scan_region fuel m e (PAGE_SIZE * (j + 1)) pi pa0 = Some (pi', pa') ->
  (pa' = pa0 /\ pi' = u64 (pi + (Limine.length e / PAGE_SIZE - j)))
  \/ (exists k, j <= k < Limine.length e / PAGE_SIZE
        /\ pa' = Limine.base e + PAGE_SIZE * k
        /\ pi' = u64 (pi + (k - j))
        /\ PageBitmap.get m pi' = Some false).
Proof.
  intros (Hb & Hl & Hb0 & Hl0 & Hend)%region_ok_inv. unfold PAGE_SIZE in *.
  assert (Hb4 : 4096 <= Limine.base e) by (Z.to_euclidean_division_equations; lia).
  revert j pi. induction fuel as [|fuel IH]; intros j pi Hj Hjl Hpi;
    cbn [scan_region]; [discriminate|]. unfold PAGE_SIZE.
  destruct (Z.leb_spec (4096 * (j + 1)) (Limine.length e)) as [Hle|Hgt].
  - destruct (PageBitmap.get m pi) as [[|]|] eqn:Hget; [| |discriminate].
    + replace (u64 (4096 * (j + 1) + 4096)) with (4096 * (j + 1 + 1))
        by (rewrite u64_small; lia).
      intros H. apply IH in H; [|lia|lia|apply u64_range].
      destruct H as [[-> ->]|(k & Hk & -> & -> & Hgetk)].
      * left. split; [reflexivity|]. rewrite u64_add_l. f_equal. lia.
      * right. exists k. rewrite u64_add_l in Hgetk |- *.
        replace (pi + 1 + (k - (j + 1))) with (pi + (k - j)) in * by lia.
        repeat split; try assumption; lia.
    + intros [= <- <-]. right. exists j.
      replace (pi + (j - j)) with pi by lia. rewrite !u64_small by lia.
      assert (j + 1 <= Limine.length e / 4096)
        by (apply Z.div_le_lower_bound; lia).
      repeat split; try assumption; lia.
  - intros [= <- <-]. left. split; [reflexivity|].
    replace (Limine.length e / 4096) with j.
    + rewrite Z.sub_diag, Z.add_0_r, u64_small; [reflexivity|exact Hpi].
    + apply Z.div_unique with (r := Limine.length e - 4096 * j); lia.
Qed.

(** The loops of [allocate_page] over a well-formed memory map: a page
    address other than 0 is page [k] of a usable entry, and [page_index]
    counts the frames of the usable entries before it and [k]. *)
Lemma scan_entries_spec (m : list Z) (mm : list Limine.memmap_entry)
    (pi0 pi pa : Z) :
  well_formed mm = true -> 0 <= pi0 < 2 ^ 64 ->
  scan_entries m mm pi0 0 = Some (pi, pa) -> pa <> 0 ->
  exists pre e post k,
    mm = pre ++ e :: post /\ usable e = true
    /\ 0 <= k < Limine.length e / PAGE_SIZE
    /\ pa = Limine.base e + PAGE_SIZE * k
    /\ pi = u64 (pi0 + frames_in pre + k)
    /\ PageBitmap.get m pi = Some false.
Proof.
  revert pi0. induction mm as [|e rest IH]; intros pi0 Hwf Hpi0; cbn [scan_entries].
  - intros [= _ <-] H. contradiction.
  - apply well_formed_cons in Hwf as [Hrest He].
    destruct (usable e) eqn:Hu.
    + destruct (He eq_refl) as [Hok _].
      destruct (scan_region (scan_fuel m) m e PAGE_SIZE pi0 0) as [[pi1 pa1]|] eqn:Hscan;
        [|discriminate].
      replace PAGE_SIZE with (PAGE_SIZE * (0 + 1)) in Hscan at 1 by reflexivity.
      pose proof (region_ok_inv e Hok) as (_ & _ & Hb0 & Hl0 & _).
      apply scan_region_spec in Hscan;
        [|exact Hok|lia|unfold PAGE_SIZE; lia|exact Hpi0].
      destruct Hscan as [[-> ->]|(k & Hk & -> & -> & Hget)].
      * cbn [Z.eqb negb]. intros Hscan Hne.
        apply IH in Hscan; [|exact Hrest|apply u64_range|exact Hne].
        destruct Hscan as (pre & e1 & post & k & -> & Hu1 & Hk & -> & -> & Hget).
        exists (e :: pre), e1, post, k. cbn [frames_in fold_right]. rewrite Hu.
        fold (frames_in pre).
        assert (Heq : u64 (u64 (pi0 + (Limine.length e / PAGE_SIZE - 0))
                           + frames_in pre + k)
                      = u64 (pi0 + (Limine.length e / PAGE_SIZE + frames_in pre) + k)).
        { rewrite <- Z.add_assoc, u64_add_l. f_equal. lia. }
        rewrite Heq in Hget |- *.
        repeat split; try assumption; lia.
      * destruct (Z.eqb_spec (Limine.base e + PAGE_SIZE * k) 0) as [H0|_];
          [unfold PAGE_SIZE in *; lia|].
        cbn [negb]. intros [= <- <-] _.
        exists [], e, rest, k. cbn [frames_in fold_right].
        replace (pi0 + 0 + k) with (pi0 + (k - 0)) by lia.
        repeat split; try assumption; lia.
    + intros Hscan Hne. apply IH in Hscan; [|exact Hrest|exact Hpi0|exact Hne].
      destruct Hscan as (pre & e1 & post & k & -> & Hu1 & Hk & -> & -> & Hget).
      exists (e :: pre), e1, post, k. cbn [frames_in fold_right]. rewrite Hu.
      fold (frames_in pre). repeat split; try assumption; lia.
Qed.

Lemma well_formed_middle (pre post : list Limine.memmap_entry)
    (e : Limine.memmap_entry) :
  well_formed (pre ++ e :: post) = true -> usable e = true -> region_ok e = true.
Proof.
  induction pre as [|e' pre IH]; cbn [app]; intros [Hrest He]%well_formed_cons Hu.
  - apply He, Hu.
  - apply IH; assumption.
Qed.

(** The loop of [free_page] over a well-formed memory map, for an address
    inside the usable entry [e]: the frames of the usable entries before
    [e], and the page of the address within [e]. *)
Lemma find_page_in_region (pre post : list Limine.memmap_entry)
    (e : Limine.memmap_entry) (pa pi0 : Z) :
  well_formed (pre ++ e :: post) = true -> usable e = true ->
  Limine.base e <= pa < Limine.base e + Limine.length e ->
  find_page (pre ++ e :: post) pa pi0
  = (u64 (pi0 + frames_in pre + (pa - Limine.base e) / PAGE_SIZE), true).
Proof.
  intros Hwf Hu Hpa.
  pose proof (region_ok_inv e (well_formed_middle _ _ _ Hwf Hu))
    as (_ & _ & Hb0 & Hl0 & Hend).
  revert pi0 Hwf. induction pre as [|e' pre IH]; intros pi0 Hwf;
    cbn [app find_page frames_in fold_right].
  - rewrite Hu. rewrite (u64_small (Limine.base e + Limine.length e)) by lia.
    rewrite (proj2 (Z.leb_le _ _)), (proj2 (Z.ltb_lt _ _)) by lia. cbn [andb].
    rewrite (u64_small (pa - Limine.base e)) by lia.
    rewrite Z.add_0_r. reflexivity.
  - apply well_formed_cons in Hwf as [Hrest He'].
    destruct (usable e') eqn:Hu'; [|apply IH, Hrest].
    destruct (He' eq_refl) as [Hok' Hdis].
    pose proof (region_ok_inv e' Hok') as (_ & _ & Hb0' & Hl0' & Hend').
    assert (Hd : disjoint e' e = true).
    { apply Hdis; [|exact Hu]. apply elem_of_app. right. apply list_elem_of_here. }
    unfold disjoint in Hd.
    rewrite (u64_small (Limine.base e' + Limine.length e')) by lia.
    replace ((Limine.base e' <=? pa) && (pa <? Limine.base e' + Limine.length e'))
      with false by (symmetry; apply andb_false_iff; lia).
    fold (frames_in pre). rewrite IH by exact Hrest.
    rewrite <- !Z.add_assoc, u64_add_l. do 2 f_equal. lia.
Qed.

(** Page-aligned addresses stay aligned through the HHDM. *)
Lemma u64_aligned (z : Z) : z mod PAGE_SIZE = 0 -> u64 z mod PAGE_SIZE = 0.
Proof.
  unfold u64, PAGE_SIZE. intros H.
  rewrite Z.mod_mod_divide; [exact H|].
  exists (2 ^ 52). reflexivity.
Qed.

Lemma virtual_to_physical_to_virtual (s : kstate) (pa : Z) :
  0 <= pa < 2 ^ 64 ->
  virtual_to_physical s (physical_to_virtual s pa) = pa.
Proof.
  intros Hpa. unfold virtual_to_physical, physical_to_virtual, u64.
  rewrite Zminus_mod_idemp_l. rewrite Z.add_simpl_r. apply Z.mod_small, Hpa.
Qed.

Lemma hhdm_ok_inv (offset : Z) :
  hhdm_ok offset = true -> 0 <= offset < 2 ^ 64 /\ offset mod PAGE_SIZE = 0.
Proof. unfold hhdm_ok. lia. Qed.

(** C7, as the code has it: over a memory map whose usable regions are
    page-aligned, pairwise disjoint, inside the address space and above
    physical address 0, with a page-aligned HHDM offset, whenever
    [allocate_page] returns a pointer, [free_page] of that pointer returns
    and gives back the state the allocation started from: the frame index it
    clears is the bit the allocation set, the count of free frames is what
    it was, and the next [allocate_page] returns the same pointer again. *)
Theorem free_after_allocate_restores (req : Limine.requests)
    (mm : list Limine.memmap_entry) (s s1 : kstate) (p : Z) :
  Limine.memmap_response req = Some mm ->
  well_formed mm = true ->
  hhdm_ok (hhdm_base s) = true ->
  words_ok (bitmap s) = true ->
  allocate_page req s = Ret p s1 ->
  exists s2,
    free_page req p s1 = Ret tt s2
    /\ s2 = s
    /\ free_frame_count mm s2 = free_frame_count mm s
    /\ allocate_page req s2 = Ret p s1
    /\ PageBitmap.get (bitmap s) (frame_index mm (virtual_to_physical s1 p)) = Some false
    /\ PageBitmap.get (bitmap s1) (frame_index mm (virtual_to_physical s1 p)) = Some true.
Proof.
  intros Hmm Hwf (Hh & Hhal)%hhdm_ok_inv Hok Halloc.
  destruct (allocate_page_Ret _ _ _ _ Halloc)
    as (mm' & pi & pa & m1 & Hmm' & Hscan & Hne & Hset & -> & ->).
  rewrite Hmm in Hmm'. injection Hmm' as <-.
  destruct (scan_entries_spec (bitmap s) mm 0 pi pa Hwf ltac:(lia) Hscan Hne)
    as (pre & e & post & k & -> & Hu & Hk & Hpa & Hpi & Hget).
  pose proof (region_ok_inv e (well_formed_middle _ _ _ Hwf Hu))
    as (Hb & Hl & Hb0 & Hl0 & Hend).
  unfold PAGE_SIZE in Hk, Hpa.
  assert (Hkl : 4096 * k < Limine.length e).
  { apply Z.lt_le_trans with (4096 * (Limine.length e / 4096)); [lia|].
    apply Z.mul_div_le. lia. }
  assert (Hpar : 0 <= pa < 2 ^ 64) by lia.
  assert (Hin : Limine.base e <= pa < Limine.base e + Limine.length e) by lia.
  assert (Hv : virtual_to_physical (KState (hhdm_base s) m1) (physical_to_virtual s pa)
               = pa) by (apply (virtual_to_physical_to_virtual s pa Hpar)).
  assert (Hidx : frame_index (pre ++ e :: post) pa = pi).
  { unfold frame_index. rewrite find_page_in_region by assumption. cbn [fst].
    rewrite Hpi. f_equal. rewrite Hpa.
    replace (Limine.base e + 4096 * k - Limine.base e) with (k * 4096) by lia.
    unfold PAGE_SIZE. rewrite Z.div_mul by lia. reflexivity. }
  assert (Hfree : free_page req (physical_to_virtual s pa) (KState (hhdm_base s) m1)
                  = Ret tt s).
  { rewrite (free_page_inside req _ _ _ Hmm).
    - rewrite Hv, Hidx. cbn [bitmap hhdm_base].
      rewrite (set_false_after_set_true _ _ _ Hok Hget Hset).
      rewrite kstate_eta. reflexivity.
    - unfold physical_to_virtual. apply u64_aligned.
      unfold PAGE_SIZE in *. clear - Hhal Hb Hpa.
      Z.to_euclidean_division_equations. lia.
    - rewrite Hv. rewrite <- find_page_found with (i := 0).
      rewrite find_page_in_region by assumption. reflexivity. }
  exists s. rewrite Hv, Hidx. cbn [bitmap].
  repeat split; try assumption.
  eapply get_set. exact Hset.
Qed.

(** The theorem on [boot64] after [init]: frame 1 is allocated and freed. *)
Lemma free_after_allocate_restores_witness :
  free_page boot64 (higher_half + 0x101000) (KState higher_half [3])
  = Ret tt (KState higher_half [1]).
Proof.
  destruct (free_after_allocate_restores boot64 _ (KState higher_half [1])
              (KState higher_half [3]) (higher_half + 0x101000)
              eq_refl eq_refl eq_refl eq_refl eq_refl)
    as (s2 & Hfree & Hs2 & _).
  rewrite <- Hs2. exact Hfree.
Defined.

(** C7, as stated, fails in three initialized states.  With a usable region
    whose base is not page-aligned, [free_page] of the pointer
    [allocate_page] returned halts.  With a usable page at physical address
    0 that reads free (here after it was freed), [allocate_page] sets bit 0
    but returns the first page of the next region, so [free_page] clears bit
    1 instead and the free frames go from 32 to 31.  With two usable regions
    that overlap, [allocate_page] sets bit 1 and [free_page] clears bit 0. *)
Lemma free_after_allocate_not_restored :
  and_then (init boot_misaligned boot_state) (λ _ s,
    and_then (allocate_page boot_misaligned s) (λ p s1,
      free_page boot_misaligned p s1))
  = Halted (KState higher_half [3])
  /\ and_then (init boot_zero boot_state) (λ _ s, free_page boot_zero higher_half s)
     = Ret tt (KState higher_half [0])
  /\ allocate_page boot_zero (KState higher_half [0])
     = Ret (higher_half + 0x100000) (KState higher_half [1])
  /\ free_page boot_zero (higher_half + 0x100000) (KState higher_half [1])
     = Ret tt (KState higher_half [1])
  /\ free_frame_count [Limine.Entry 0 PAGE_SIZE Limine.USABLE;
                       Limine.Entry 0x100000 (63 * PAGE_SIZE) Limine.USABLE]
       (KState higher_half [0]) = 32%nat
  /\ free_frame_count [Limine.Entry 0 PAGE_SIZE Limine.USABLE;
                       Limine.Entry 0x100000 (63 * PAGE_SIZE) Limine.USABLE]
       (KState higher_half [1]) = 31%nat
  /\ init boot_overlap boot_state = Ret tt (KState higher_half [1])
  /\ allocate_page boot_overlap (KState higher_half [1])
     = Ret (higher_half + 0x100000) (KState higher_half [3])
  /\ free_page boot_overlap (higher_half + 0x100000) (KState higher_half [3])
     = Ret tt (KState higher_half [2]).
Proof. repeat split; vm_compute; reflexivity. Qed.

End AllocatePage.

(** ** [init] *)

Section Init.

(** What a returning [init] did. *)
Lemma init_Ret (req : Limine.requests) (s s0 : kstate) :
  init req s = Ret tt s0 ->
  exists mm offset skipped addr m_data',
    Limine.memmap_response req = Some mm
    /\ Limine.hhdm_response req = Some offset
    /\ find_bitmap_region (KState offset (bitmap s)) (bitmap_array_size mm) mm 0
       = (skipped, addr)
    /\ addr <> 0
    /\ mark_bitmap_pages (Z.to_nat (bitmap_page_size mm)) 0 skipped
         (PageBitmap.clear (PageBitmap.make (bitmap_array_size mm)))
       = Some m_data'
    /\ s0 = KState offset m_data'.
Proof.
  unfold init.
  destruct (Limine.memmap_response req) as [mm|]; [|discriminate].
  destruct (Limine.hhdm_response req) as [offset|]; [|discriminate].
  destruct (find_bitmap_region _ _ mm 0) as [skipped addr] eqn:Hfind.
  destruct (Z.eqb_spec addr 0) as [|Hne]; [discriminate|].
  destruct (mark_bitmap_pages _ 0 skipped _) as [m_data'|] eqn:Hmark; [|discriminate].
  intros [= <-]. exists mm, offset, skipped, addr, m_data'.
  repeat split; try reflexivity; assumption.
Qed.

(** The second loop of [init] reads the state only for [hhdm_base]. *)
Lemma find_bitmap_region_hhdm (s s' : kstate) (size : Z)
    (mm : list Limine.memmap_entry) (sk : Z) :
  hhdm_base s = hhdm_base s' ->
  find_bitmap_region s size mm sk = find_bitmap_region s' size mm sk.
Proof.
  intros Hh. revert sk. induction mm as [|e rest IH]; intros sk;
    cbn [find_bitmap_region]; [reflexivity|].
  unfold physical_to_virtual. rewrite Hh.
  destruct (usable e), (size <=? Limine.length e); auto.
Qed.

(** The region the second loop of [init] picks: the first usable entry at
    least [size] bytes long, with the frames of the usable entries before it
    as [skipped_pages]. *)
Lemma find_bitmap_region_spec (s : kstate) (size : Z)
    (mm : list Limine.memmap_entry) (sk0 sk addr : Z) :
  0 <= sk0 < 2 ^ 64 ->
  find_bitmap_region s size mm sk0 = (sk, addr) -> addr <> 0 ->
  exists pre e post,
    mm = pre ++ e :: post /\ usable e = true /\ size <= Limine.length e
    /\ addr = physical_to_virtual s (Limine.base e)
    /\ sk = u64 (sk0 + frames_in pre).
Proof.
  revert sk0. induction mm as [|e rest IH]; intros sk0 Hsk0;
    cbn [find_bitmap_region].
  - intros [= _ <-] H. contradiction.
  - destruct (usable e) eqn:Hu.
    + destruct (Z.leb_spec size (Limine.length e)) as [Hle|Hgt].
      * intros [= <- <-] _. exists [], e, rest. cbn [frames_in fold_right app].
        rewrite Z.add_0_r, u64_small by exact Hsk0.
        repeat split; try assumption; reflexivity.
      * intros H Hne.
        destruct (IH _ (u64_range _) H Hne)
          as (pre & e1 & post & -> & Hu1 & Hle & -> & ->).
        exists (e :: pre), e1, post. cbn [frames_in fold_right]. rewrite Hu.
        fold (frames_in pre). rewrite u64_add_l, Z.add_assoc.
        repeat split; try assumption; reflexivity.
    + intros H Hne.
      destruct (IH _ Hsk0 H Hne) as (pre & e1 & post & -> & Hu1 & Hle & -> & ->).
      exists (e :: pre), e1, post. cbn [frames_in fold_right]. rewrite Hu.
      fold (frames_in pre). repeat split; try assumption; reflexivity.
Qed.

(** The third loop of [init] leaves set every bit that was set, and sets the
    bits of the pages it goes through. *)
Lemma mark_bitmap_pages_keeps (n : nat) (i sk : Z) (m m' : list Z) (x : Z) :
  PageBitmap.get m x = Some true ->
  mark_bitmap_pages n i sk m = Some m' -> PageBitmap.get m' x = Some true.
Proof.
  revert i m. induction n as [|n IH]; intros i m Hget; cbn [mark_bitmap_pages].
  - intros [= <-]. exact Hget.
  - destruct (PageBitmap.set m (u64 (i + sk)) true) as [m1|] eqn:Hset; [|discriminate].
    apply IH. eapply get_true_set_true; eassumption.
Qed.

Lemma mark_bitmap_pages_spec (n : nat) (i sk : Z) (m m' : list Z) (j : Z) :
  mark_bitmap_pages n i sk m = Some m' ->
  i <= j < i + Z.of_nat n ->
  PageBitmap.get m' (u64 (j + sk)) = Some true.
Proof.
  revert i m. induction n as [|n IH]; intros i m; cbn [mark_bitmap_pages]; [lia|].
  destruct (PageBitmap.set m (u64 (i + sk)) true) as [m1|] eqn:Hset; [|discriminate].
  intros Hmark Hj. destruct (Z.eq_dec j i) as [->|Hne].
  - eapply mark_bitmap_pages_keeps; [|exact Hmark]. eapply get_set. exact Hset.
  - eapply IH; [exact Hmark|lia].
Qed.

(** After [init] every frame index of the bitmap's own pages reads
    allocated. *)
Lemma init_marks_bitmap_frames (req : Limine.requests)
    (mm : list Limine.memmap_entry) (offset : Z) (s s0 : kstate) (i : Z) :
  Limine.memmap_response req = Some mm ->
  Limine.hhdm_response req = Some offset ->
  init req s = Ret tt s0 ->
  0 <= i < bitmap_page_size mm ->
  PageBitmap.get (bitmap s0) (u64 (i + skipped_pages offset mm)) = Some true.
Proof.
  intros Hmm Hoff Hinit Hi.
  destruct (init_Ret _ _ _ Hinit)
    as (mm' & offset' & sk & addr & m' & Hmm' & Hoff' & Hfind & Hne & Hmark & ->).
  rewrite Hmm in Hmm'. injection Hmm' as <-.
  rewrite Hoff in Hoff'. injection Hoff' as <-.
  unfold skipped_pages.
  rewrite (find_bitmap_region_hhdm _ (KState offset (bitmap s))) by reflexivity.
  rewrite Hfind. cbn [fst bitmap].
  eapply mark_bitmap_pages_spec; [exact Hmark|lia].
Qed.

(** C2, as the code has it: over a memory map whose usable regions are
    page-aligned, pairwise disjoint, inside the address space and above
    physical address 0, with a page-aligned HHDM offset, after [init]
    returns every frame index of the bitmap's own pages reads allocated;
    and [free_page] of the HHDM address of such a page is not rejected:
    [free_page] keeps no record of who owns a frame, it returns and the bit
    reads clear. *)
Theorem bootstrap_frames_marked_and_freeable (req : Limine.requests)
    (mm : list Limine.memmap_entry) (offset : Z) (s s0 : kstate) (i : Z) :
  Limine.memmap_response req = Some mm ->
  Limine.hhdm_response req = Some offset ->
  well_formed mm = true ->
  hhdm_ok offset = true ->
  init req s = Ret tt s0 ->
  0 <= i < bitmap_page_size mm ->
  PageBitmap.get (bitmap s0) (u64 (i + skipped_pages offset mm)) = Some true
  /\ exists s1,
       free_page req (u64 (bitmap_array_addr offset mm + PAGE_SIZE * i)) s0
       = Ret tt s1
       /\ PageBitmap.get (bitmap s1) (u64 (i + skipped_pages offset mm)) = Some false.
Proof.
  intros Hmm Hoff Hwf (Hh & Hhal)%hhdm_ok_inv Hinit Hi.
  pose proof (init_marks_bitmap_frames _ _ _ _ _ _ Hmm Hoff Hinit Hi) as Hget.
  split; [exact Hget|].
  destruct (init_Ret _ _ _ Hinit)
    as (mm' & offset' & sk & addr & m' & Hmm' & Hoff' & Hfind & Hne & Hmark & ->).
  rewrite Hmm in Hmm'. injection Hmm' as <-.
  rewrite Hoff in Hoff'. injection Hoff' as <-.
  rewrite (find_bitmap_region_hhdm _ (KState offset [])) in Hfind by reflexivity.
  unfold skipped_pages, bitmap_array_addr in *. rewrite Hfind in *.
  cbn [fst snd bitmap] in *.
  assert (H0 : 0 <= 0 < 2 ^ 64) by lia.
  destruct (find_bitmap_region_spec _ _ _ _ _ _ H0 Hfind Hne)
    as (pre & e & post & -> & Hu & Hle & -> & ->).
  pose proof (region_ok_inv e (well_formed_middle _ _ _ Hwf Hu))
    as (Hb & Hl & Hb0 & Hl0 & Hend).
  set (bas := bitmap_array_size (pre ++ e :: post)) in *.
  unfold bitmap_page_size, div_ceil in Hi. fold bas in Hi.
  unfold PAGE_SIZE, physical_to_virtual in *. cbn [hhdm_base] in *.
  assert (Hfit : 4096 * i + 4096 <= Limine.length e).
  { clear - Hi Hle Hl. Z.to_euclidean_division_equations. lia. }
  set (pa := Limine.base e + 4096 * i).
  assert (Hpar : 0 <= pa < 2 ^ 64) by (unfold pa; lia).
  pose (s0 := KState offset m'). fold s0 in Hget |- *.
  assert (Hp : u64 (u64 (Limine.base e + offset) + 4096 * i)
               = physical_to_virtual s0 pa).
  { unfold physical_to_virtual, pa, s0. cbn [hhdm_base]. rewrite u64_add_l.
    f_equal. lia. }
  rewrite Hp.
  assert (Hv : virtual_to_physical s0 (physical_to_virtual s0 pa) = pa)
    by (apply virtual_to_physical_to_virtual, Hpar).
  assert (Hidx : frame_index (pre ++ e :: post) pa = u64 (i + u64 (0 + frames_in pre))).
  { unfold frame_index. rewrite find_page_in_region; [|assumption..|unfold pa; lia].
    cbn [fst]. rewrite u64_add_r. f_equal. unfold pa, PAGE_SIZE.
    replace (Limine.base e + 4096 * i - Limine.base e) with (i * 4096) by lia.
    rewrite Z.div_mul by lia. lia. }
  destruct (set_defined _ _ _ false Hget) as [m1 Hset].
  exists (KState offset m1). split.
  - rewrite (free_page_inside req _ _ _ Hmm).
    + rewrite Hv, Hidx. unfold s0 in Hset |- *. cbn [bitmap hhdm_base] in Hset |- *.
      rewrite Hset. reflexivity.
    + unfold physical_to_virtual. apply u64_aligned.
      unfold PAGE_SIZE, pa, s0. cbn [hhdm_base]. clear - Hhal Hb.
      Z.to_euclidean_division_equations. lia.
    + rewrite Hv. rewrite <- find_page_found with (i := 0).
      rewrite find_page_in_region; [reflexivity|assumption..|unfold pa; lia].
  - cbn [bitmap]. eapply get_set. exact Hset.
Qed.

(** The theorem on [boot64]: the bitmap takes one page, frame 0. *)
Lemma bootstrap_frames_marked_and_freeable_witness :
  PageBitmap.get [1] 0 = Some true
  /\ exists s1,
       free_page boot64 (higher_half + 0x100000) (KState higher_half [1]) = Ret tt s1
       /\ PageBitmap.get (bitmap s1) 0 = Some false.
Proof.
  apply (bootstrap_frames_marked_and_freeable boot64 _ higher_half boot_state
           (KState higher_half [1]) 0 eq_refl eq_refl eq_refl eq_refl eq_refl).
  vm_compute. split; [discriminate | reflexivity].
Defined.

(** C2, as stated, fails on [boot64]: after [init], [free_page] of the HHDM
    address of frame 0, the page that holds the bitmap, returns with the bit
    cleared; it does not halt. *)
Lemma free_bitmap_frame_not_rejected :
  init boot64 boot_state = Ret tt (KState higher_half [1])
  /\ bitmap_array_addr higher_half
       [Limine.Entry 0 0x100000 Limine.RESERVED; region64;
        Limine.Entry 0x140000 0x10000 Limine.KERNEL_AND_MODULES]
     = higher_half + 0x100000
  /\ free_page boot64 (higher_half + 0x100000) (KState higher_half [1])
     = Ret tt (KState higher_half [0]).
Proof. repeat split; vm_compute; reflexivity. Qed.

End Init.

(** ** One usable region of 64 pages *)

Section OneRegion.

(** The loops pass over the entries that are not usable. *)
Lemma usable_memory_filter (mm : list Limine.memmap_entry) :
  usable_memory mm = usable_memory (List.filter usable mm).
Proof.
  unfold usable_memory. generalize 0.
  induction mm as [|e rest IH]; intros acc; [reflexivity|].
  cbn [fold_left List.filter]. destruct (usable e) eqn:Hu.
  - cbn [fold_left]. rewrite Hu. apply IH.
  - apply IH.
Qed.

Lemma find_bitmap_region_filter (s : kstate) (size : Z)
    (mm : list Limine.memmap_entry) (sk : Z) :
  find_bitmap_region s size mm sk
  = find_bitmap_region s size (List.filter usable mm) sk.
Proof.
  revert sk. induction mm as [|e rest IH]; intros sk; [reflexivity|].
  cbn [find_bitmap_region List.filter]. destruct (usable e) eqn:Hu.
  - cbn [find_bitmap_region]. rewrite Hu.
    destruct (size <=? Limine.length e); [reflexivity | apply IH].
  - apply IH.
Qed.

Lemma scan_entries_filter (m : list Z) (mm : list Limine.memmap_entry) (pi pa : Z) :
  scan_entries m mm pi pa = scan_entries m (List.filter usable mm) pi pa.
Proof.
  revert pi pa. induction mm as [|e rest IH]; intros pi pa; [reflexivity|].
  cbn [scan_entries List.filter]. destruct (usable e) eqn:Hu.
  - cbn [scan_entries]. rewrite Hu.
    destruct (scan_region _ m e PAGE_SIZE pi pa) as [[pi1 pa1]|]; [|reflexivity].
    destruct (negb (pa1 =? 0)); [reflexivity | apply IH].
  - apply IH.
Qed.

Lemma filter_usable_singleton (mm : list Limine.memmap_entry)
    (e : Limine.memmap_entry) :
  List.filter usable mm = [e] -> usable e = true.
Proof.
  intros H. assert (Hin : In e (List.filter usable mm)) by (rewrite H; left; reflexivity).
  apply filter_In in Hin. tauto.
Qed.

(** The inner loop finds the first clear bit, [k] set bits further on. *)
Lemma scan_region_found (k : nat) (fuel : nat) (m : list Z)
    (e : Limine.memmap_entry) (size pi pa0 : Z) :
  (k < fuel)%nat ->
  0 <= size -> size + PAGE_SIZE * Z.of_nat k <= Limine.length e ->
  size + PAGE_SIZE * Z.of_nat k < 2 ^ 64 ->
  0 <= pi -> pi + Z.of_nat k < 2 ^ 64 ->
  (forall j, 0 <= j < Z.of_nat k -> PageBitmap.get m (pi + j) = Some true) ->
  PageBitmap.get m (pi + Z.of_nat k) = Some false ->
  scan_region fuel m e size pi pa0
  = Some (pi + Z.of_nat k,
          u64 (Limine.base e + (size + PAGE_SIZE * Z.of_nat k) - PAGE_SIZE)).
Proof.
  unfold PAGE_SIZE. revert fuel size pi.
  induction k as [|k IH]; intros fuel size pi Hfuel Hsize Hlen Hwrap Hpi Hpiw Hset Hclear;
    (destruct fuel as [|fuel]; [lia|]); cbn [scan_region]; unfold PAGE_SIZE;
    rewrite (proj2 (Z.leb_le size (Limine.length e))) by lia.
  - change (Z.of_nat 0) with 0 in *.
    rewrite Z.mul_0_r, !Z.add_0_r in *. rewrite Hclear. reflexivity.
  - replace (PageBitmap.get m pi) with (Some true)
      by (symmetry; rewrite <- (Z.add_0_r pi); apply Hset; lia).
    rewrite !u64_small by lia.
    rewrite IH; try lia.
    + f_equal. f_equal; [lia | f_equal; lia].
    + intros j Hj. replace (pi + 1 + j) with (pi + (1 + j)) by lia. apply Hset. lia.
    + replace (pi + 1 + Z.of_nat k) with (pi + Z.of_nat (S k)) by lia. exact Hclear.
Qed.

(** The one-word bitmap whose [k] low bits are set, for [k] from 1 to 31:
    the bits below [k] read set, bit [k] reads clear, and setting bit [k]
    gives the next such word, except that setting bit 31 sets bits 31 to 63
    at once. *)
Lemma one_word_table (k : Z) :
  1 <= k <= 31 ->
  (forall j, 0 <= j < k -> PageBitmap.get [Z.ones k] j = Some true)
  /\ PageBitmap.get [Z.ones k] k = Some false
  /\ PageBitmap.set [Z.ones k] k true
     = Some [if k <? 31 then Z.ones (k + 1) else Z.ones 64].
Proof.
  intros Hk.
  assert (H : Forall (λ k,
                Forall (λ j, PageBitmap.get [Z.ones k] j = Some true) (seqZ 0 k)
                /\ PageBitmap.get [Z.ones k] k = Some false
                /\ PageBitmap.set [Z.ones k] k true
                   = Some [if k <? 31 then Z.ones (k + 1) else Z.ones 64])
              (seqZ 1 31)).
  { apply (bool_decide_unpack _). vm_compute. exact I. }
  rewrite Forall_forall in H.
  destruct (H k) as (H1 & H2 & H3); [apply elem_of_seqZ; lia|].
  split; [|split; assumption].
  intros j Hj. rewrite Forall_forall in H1. apply H1, elem_of_seqZ. lia.
Qed.

Section Region.

Variables (req : Limine.requests) (mm : list Limine.memmap_entry)
  (e : Limine.memmap_entry) (offset : Z).
Hypothesis Hmm : Limine.memmap_response req = Some mm.
Hypothesis Hoff : Limine.hhdm_response req = Some offset.
Hypothesis Hone : List.filter usable mm = [e].
Hypothesis Hlen : Limine.length e = 64 * PAGE_SIZE.
Hypothesis Hbase : 0 <= Limine.base e.
Hypothesis Hend : Limine.base e + 64 * PAGE_SIZE <= 2 ^ 64.

(** [init] sizes the bitmap at 8 bytes, one word in one page, puts it at the
    start of the region, and marks frame 0. *)
Lemma init_one_region (s : kstate) :
  u64 (Limine.base e + offset) <> 0 ->
  init req s = Ret tt (KState offset [1]).
Proof.
  intros Hnull. pose proof (filter_usable_singleton _ _ Hone) as Hu.
  assert (Hbas : bitmap_array_size mm = 8).
  { unfold bitmap_array_size, pages. rewrite usable_memory_filter, Hone.
    unfold usable_memory. cbn [fold_left]. rewrite Hu, Hlen. reflexivity. }
  assert (Hbps : bitmap_page_size mm = 1)
    by (unfold bitmap_page_size; rewrite Hbas; reflexivity).
  unfold init. rewrite Hmm, Hoff, Hbas, Hbps.
  rewrite find_bitmap_region_filter, Hone.
  cbn [find_bitmap_region]. rewrite Hu, Hlen.
  change (8 <=? 64 * PAGE_SIZE) with true. cbn match.
  unfold physical_to_virtual. cbn [hhdm_base].
  destruct (Z.eqb_spec (u64 (Limine.base e + offset)) 0); [contradiction|].
  reflexivity.
Qed.

(** With frames [0] to [k - 1] taken, [allocate_page] returns frame [k]. *)
Lemma allocate_page_one_region (k : Z) :
  1 <= k <= 31 ->
  allocate_page req (KState offset [Z.ones k])
  = Ret (u64 (Limine.base e + PAGE_SIZE * k + offset))
        (KState offset [if k <? 31 then Z.ones (k + 1) else Z.ones 64]).
Proof.
  intros Hk. pose proof (filter_usable_singleton _ _ Hone) as Hu.
  destruct (one_word_table k Hk) as (Hset & Hclear & Hnext).
  unfold allocate_page. rewrite Hmm. cbn [bitmap].
  rewrite scan_entries_filter, Hone. cbn [scan_entries]. rewrite Hu.
  unfold PAGE_SIZE in *.
  rewrite (scan_region_found (Z.to_nat k)); unfold PAGE_SIZE;
    rewrite ?Z2Nat.id by lia; cbn [scan_fuel length]; try lia;
    try assumption.
  - rewrite Z.add_0_l.
    replace (Limine.base e + (4096 + 4096 * k) - 4096)
      with (Limine.base e + 4096 * k) by lia.
    rewrite u64_small by lia.
    destruct (Z.eqb_spec (Limine.base e + 4096 * k) 0); [lia|]. cbn [negb].
    unfold allocate_found.
    destruct (Z.eqb_spec (Limine.base e + 4096 * k) 0); [lia|].
    cbn [bitmap hhdm_base]. rewrite Hnext. reflexivity.
  - unfold scan_fuel. cbn [length]. lia.
Qed.

(** The calls that follow [init] hand out frames 1, 2, ... in order. *)
Lemma allocate_pages_one_region (n : nat) (k : Z) :
  1 <= k -> k + Z.of_nat n <= 32 ->
  exists sn,
    allocate_pages req n (KState offset [Z.ones k])
    = Ret ((λ j, u64 (Limine.base e + PAGE_SIZE * j + offset))
             <$> seqZ k (Z.of_nat n)) sn.
Proof.
  revert k. induction n as [|n IH]; intros k Hk Hn.
  - eexists. reflexivity.
  - cbn [allocate_pages]. rewrite allocate_page_one_region by lia.
    cbn [and_then].
    rewrite seqZ_cons by lia. cbn [fmap list_fmap].
    replace (Z.pred (Z.of_nat (S n))) with (Z.of_nat n) by lia.
    destruct (Z.ltb_spec k 31) as [Hlt|Hge].
    + destruct (IH (k + 1)) as [sn Hsn]; [lia|lia|].
      rewrite Hsn. cbn [and_then]. eexists. reflexivity.
    + destruct n as [|n]; [|lia]. cbn [allocate_pages and_then].
      eexists. reflexivity.
Qed.

End Region.

(** C1, as the code has it: for a memory map with exactly one usable region,
    of exactly 64 pages, [init] returns with frame 0, the page that holds
    the bitmap, marked allocated; the calls of [allocate_page] that follow
    return the frames from 1 on in ascending order, never frame 0, and the
    first 31 of them return. *)
Theorem one_region_64_pages_allocations (req : Limine.requests)
    (mm : list Limine.memmap_entry) (e : Limine.memmap_entry) (offset : Z)
    (s : kstate) :
  Limine.memmap_response req = Some mm ->
  Limine.hhdm_response req = Some offset ->
  List.filter usable mm = [e] ->
  Limine.length e = 64 * PAGE_SIZE ->
  0 <= Limine.base e ->
  Limine.base e + 64 * PAGE_SIZE <= 2 ^ 64 ->
  u64 (Limine.base e + offset) <> 0 ->
  init req s = Ret tt (KState offset [1])
  /\ PageBitmap.get [1] 0 = Some true
  /\ forall n, (n <= 31)%nat ->
       exists sn,
         allocate_pages req n (KState offset [1])
         = Ret ((λ j, u64 (Limine.base e + PAGE_SIZE * j + offset))
                  <$> seqZ 1 (Z.of_nat n)) sn.
Proof.
  intros Hmm Hoff Hone Hlen Hbase Hend Hnull.
  split; [eapply init_one_region; eassumption|].
  split; [reflexivity|].
  intros n Hn. change 1 with (Z.ones 1) at 1.
  eapply allocate_pages_one_region; try eassumption; lia.
Qed.

(** The theorem on [boot64]: [init], then three calls. *)
Lemma one_region_64_pages_allocations_witness :
  init boot64 boot_state = Ret tt (KState higher_half [1])
  /\ exists sn,
       allocate_pages boot64 3 (KState higher_half [1])
       = Ret [higher_half + 0x101000; higher_half + 0x102000;
              higher_half + 0x103000] sn.
Proof.
  destruct (one_region_64_pages_allocations boot64 _ region64 higher_half
              boot_state eq_refl eq_refl eq_refl eq_refl)
    as (Hinit & _ & Halloc).
  - vm_compute. discriminate.
  - vm_compute. discriminate.
  - vm_compute. discriminate.
  - split; [exact Hinit|]. apply (Halloc 3%nat). lia.
Defined.

(** C1, as stated, fails on [boot64]: after [init] the first 31 calls
    return, and the 32nd reads bit 32 of the bitmap through [1 << 32] on an
    [int], so neither 32 nor 64 calls in a row all return. *)
Lemma allocate_64_pages_not_all_return :
  init boot64 boot_state = Ret tt (KState higher_half [1])
  /\ allocate_pages boot64 31 (KState higher_half [1])
     = Ret ((λ j, higher_half + 0x100000 + PAGE_SIZE * j) <$> seqZ 1 31)
           (KState higher_half [Z.ones 64])
  /\ allocate_page boot64 (KState higher_half [Z.ones 64]) = Undefined
  /\ allocate_pages boot64 32 (KState higher_half [1]) = Undefined
  /\ allocate_pages boot64 64 (KState higher_half [1]) = Undefined.
Proof. repeat split; vm_compute; reflexivity. Qed.

End OneRegion.

(** ** Invariants of the model *)

Section Invariants.

(** A defined read is a read inside the span. *)
Lemma get_in_span (m : list Z) (index : Z) (b : bool) :
  0 <= index -> PageBitmap.get m index = Some b ->
  index < 64 * Z.of_nat (length m).
Proof.
  intros Hi (one & w & _ & Hw & _)%get_Some.
  apply lookup_lt_Some in Hw.
  assert (index / 64 < Z.of_nat (length m)) by lia.
  Z.to_euclidean_division_equations. lia.
Qed.

(** The fuel of the inner loop is enough: the loop gives no result only
    where a read of the bitmap is undefined. *)
Lemma scan_region_fuel (fuel : nat) (m : list Z) (e : Limine.memmap_entry)
    (size pi pa : Z) :
  0 <= pi -> 64 * Z.of_nat (length m) < 2 ^ 64 ->
  64 * Z.of_nat (length m) < pi + Z.of_nat fuel ->
  scan_region fuel m e size pi pa = None ->
  exists index, PageBitmap.get m index = None.
Proof.
  intros Hpi Hspan. revert size pi Hpi.
  induction fuel as [|fuel IH]; intros size pi Hpi Hfuel; cbn [scan_region].
  - intros _. exists pi.
    destruct (PageBitmap.get m pi) as [b|] eqn:Hget; [|reflexivity].
    apply get_in_span in Hget; lia.
  - destruct (size <=? Limine.length e); [|discriminate].
    destruct (PageBitmap.get m pi) as [[|]|] eqn:Hget.
    + apply get_in_span in Hget; [|exact Hpi].
      rewrite (u64_small (pi + 1)) by lia. apply IH; lia.
    + discriminate.
    + intros _. exists pi. exact Hget.
Qed.

Lemma scan_region_defined (m : list Z) (e : Limine.memmap_entry) (size pi pa : Z) :
  0 <= pi -> 64 * Z.of_nat (length m) < 2 ^ 64 ->
  scan_region (scan_fuel m) m e size pi pa = None ->
  exists index, PageBitmap.get m index = None.
Proof.
  intros Hpi Hspan. apply scan_region_fuel; [exact Hpi|exact Hspan|].
  unfold scan_fuel. lia.
Qed.

(** The words of the bitmap stay [u64] values. *)
Lemma mark_bitmap_pages_words_ok (n : nat) (i sk : Z) (m m' : list Z) :
  words_ok m = true -> mark_bitmap_pages n i sk m = Some m' -> words_ok m' = true.
Proof.
  revert i m. induction n as [|n IH]; intros i m Hok; cbn [mark_bitmap_pages].
  - intros [= <-]. exact Hok.
  - destruct (PageBitmap.set m (u64 (i + sk)) true) as [m1|] eqn:Hset; [|discriminate].
    apply IH. eapply set_words_ok; eassumption.
Qed.

Lemma init_words_ok (req : Limine.requests) (s s0 : kstate) :
  init req s = Ret tt s0 -> words_ok (bitmap s0) = true.
Proof.
  intros (mm & offset & sk & addr & m' & _ & _ & _ & _ & Hmark & ->)%init_Ret.
  cbn [bitmap]. eapply mark_bitmap_pages_words_ok; [|exact Hmark].
  unfold PageBitmap.clear, PageBitmap.make, words_ok.
  rewrite forallb_forall. intros w Hin. rewrite <- list_elem_of_In in Hin.
  apply list_elem_of_fmap in Hin as (? & -> & _). reflexivity.
Qed.

Lemma allocate_page_words_ok (req : Limine.requests) (s s1 : kstate) (p : Z) :
  words_ok (bitmap s) = true -> allocate_page req s = Ret p s1 ->
  words_ok (bitmap s1) = true.
Proof.
  intros Hok (mm & pi & pa & m1 & _ & _ & _ & Hset & _ & ->)%allocate_page_Ret.
  cbn [bitmap]. eapply set_words_ok; eassumption.
Qed.

Lemma free_page_words_ok (req : Limine.requests) (s s1 : kstate) (p : Z) :
  words_ok (bitmap s) = true -> free_page req p s = Ret tt s1 ->
  words_ok (bitmap s1) = true.
Proof.
  intros Hok. unfold free_page.
  destruct (negb (p mod PAGE_SIZE =? 0)); [discriminate|].
  destruct (Limine.memmap_response req) as [mm|]; [|discriminate].
  destruct (find_page mm (virtual_to_physical s p) 0) as [idx found].
  destruct (negb found); [discriminate|].
  destruct (PageBitmap.set (bitmap s) idx false) as [m1|] eqn:Hset; [|discriminate].
  intros [= <-]. cbn [bitmap]. eapply set_words_ok; eassumption.
Qed.

End Invariants.

(** ** Page table entries: how the accessors compose *)

Section PageTableEntryFields.

Import PTE.

(** A flag below bit 31 reads the bit of the entry. *)
Lemma get_bit_testbit (e : PageTableEntry) (idx : Z) :
  0 <= idx < 31 -> get_bit e idx = Some (Z.testbit (m_value e) idx).
Proof.
  intros Hidx. unfold get_bit, shl_one_int.
  rewrite (proj2 (Z.ltb_lt idx 31)) by lia. f_equal.
  assert (H2 : 0 <= 2 ^ idx < 2 ^ 64).
  { split; [apply Z.pow_nonneg; lia | apply Z.pow_lt_mono_r; lia]. }
  rewrite u64_small by exact H2.
  destruct (Z.testbit (m_value e) idx) eqn:Hb.
  - destruct (Z.eqb_spec (Z.land (m_value e) (2 ^ idx)) 0) as [H0|]; [|reflexivity].
    apply (f_equal (λ z, Z.testbit z idx)) in H0.
    rewrite Z.land_spec, Hb, Z.pow2_bits_eqb, Z.eqb_refl, Z.bits_0 in H0 by lia.
    discriminate.
  - replace (Z.land (m_value e) (2 ^ idx)) with 0; [reflexivity|].
    symmetry. apply Z.bits_inj'. intros i Hi.
    rewrite Z.land_spec, Z.bits_0, Z.pow2_bits_eqb by lia.
    destruct (Z.eqb_spec idx i) as [<-|]; [rewrite Hb|]; auto using andb_false_r.
Qed.

(** [addr] reads bits 12 to 51 and nothing else. *)
Lemma addr_ext (m m' : Z) :
  (forall i, 12 <= i < 52 -> Z.testbit m i = Z.testbit m' i) ->
  addr (Entry m) = addr (Entry m').
Proof.
  intros H. unfold addr, addr_mask. cbn [m_value].
  replace (Z.shiftl 1 52 - 1) with (Z.ones 52) by reflexivity.
  replace (Z.shiftl 1 12 - 1) with (Z.ones 12) by reflexivity.
  apply Z.bits_inj'. intros i Hi.
  split_index i [12; 52; 64]%list; bits_of_ops; decide_comparisons;
    rewrite ?andb_false_r, ?andb_true_r; cbn [andb negb];
    rewrite ?andb_false_r, ?andb_true_r; try reflexivity.
  apply H. lia.
Qed.

(** [get_available] reads bits 8 to 11 and 52 to 62 and nothing else. *)
Lemma get_available_ext (m m' : Z) :
  (forall i, 8 <= i < 12 \/ 52 <= i < 63 -> Z.testbit m i = Z.testbit m' i) ->
  get_available (Entry m) = get_available (Entry m').
Proof.
  intros H. unfold get_available. cbn [m_value].
  rewrite mask_FFE0, mask_1E.
  apply Z.bits_inj'. intros i Hi.
  split_index i [1; 5; 16]%list; bits_of_ops; decide_comparisons;
    rewrite ?andb_false_r, ?andb_true_r, ?orb_false_r, ?orb_false_l;
    cbn [andb orb negb];
    rewrite ?andb_false_r, ?andb_true_r, ?orb_false_r, ?orb_false_l;
    try reflexivity; apply H; lia.
Qed.

(** The bits [math_set_bit] leaves as they were. *)
Lemma math_set_bit_other (m idx i : Z) (v : bool) :
  0 <= idx -> 0 <= i < 64 -> i <> idx ->
  Z.testbit (math_set_bit m idx v) i = Z.testbit m i.
Proof.
  intros Hidx Hi Hne. unfold math_set_bit. rewrite Z.shiftl_1_l.
  destruct v; bits_of_ops; rewrite Z.pow2_bits_eqb by lia;
    decide_comparisons; destruct (Z.eqb_spec idx i); try lia;
    cbn [andb negb]; rewrite ?orb_false_r, ?andb_true_r; reflexivity.
Qed.

(** The bits [set_addr] leaves as they were. *)
Lemma set_addr_other (e : PageTableEntry) (p i : Z) :
  0 <= i < 64 -> ~ 12 <= i < 48 ->
  Z.testbit (m_value (set_addr e p)) i = Z.testbit (m_value e) i.
Proof.
  intros Hi Hout. unfold set_addr. cbn [m_value].
  replace (48 - 12) with 36 by reflexivity.
  split_index i [12; 48]%list; try lia; bitwise.
Qed.

(** The bits [set_available] leaves as they were, for any argument. *)
Lemma set_available_other (e : PageTableEntry) (v i : Z) :
  0 <= i < 64 -> ~ 8 <= i < 12 -> ~ 52 <= i < 64 ->
  Z.testbit (m_value (set_available e v)) i = Z.testbit (m_value e) i.
Proof.
  intros Hi H1 H2. unfold set_available. cbn [m_value]. rewrite mask_1E.
  split_index i [8; 12; 52]%list; try lia; bitwise.
Qed.

(** [set_addr] then [addr] gives the address rounded down to 4 KiB when the
    address is below [2^48] and bits 48 to 51 of the entry are clear. *)
Theorem set_addr_addr_below_48 (e : PageTableEntry) (p : Z) :
  0 <= p < 2 ^ 48 ->
  Z.land (m_value e) (Z.shiftl 0xF 48) = 0 ->
  addr (set_addr e p) = round_down_4k p.
Proof.
  intros Hp Hhigh. rewrite addr_set_addr.
  change (Z.ones 4) with 0xF. rewrite Hhigh, Z.lor_0_l.
  unfold round_down_4k, PAGE_SIZE.
  replace (p - p mod 4096) with (Z.shiftl (Z.shiftr p 12) 12).
  - apply Z.bits_inj'. intros i Hi.
    assert (Hbig : forall j, 48 <= j -> Z.testbit p j = false).
    { intros j Hge. rewrite <- (Z.mod_small p (2 ^ 48)) by lia.
      apply Z.mod_pow2_bits_high. lia. }
    split_index i [12; 48]%list; bits_of_ops; decide_comparisons;
      rewrite ?andb_false_r, ?andb_true_r; cbn [andb];
      try reflexivity; try (f_equal; lia).
    symmetry. apply Hbig. lia.
  - rewrite Z.shiftr_div_pow2, Z.shiftl_mul_pow2 by lia.
    change (2 ^ 12) with 4096. Z.to_euclidean_division_equations. lia.
Qed.

Lemma set_addr_addr_below_48_witness :
  addr (set_addr (Entry 0x8000000000000007) 0x12345678) = 0x12345000.
Proof.
  apply (set_addr_addr_below_48 (Entry 0x8000000000000007) 0x12345678);
    [lia | reflexivity].
Defined.

(** [set_addr] changes bits 12 to 47 only: the four low flags and the
    available bits read as before. *)
Theorem set_addr_keeps_flags (e : PageTableEntry) (p : Z) :
  (forall i, 0 <= i < 64 -> ~ 12 <= i < 48 ->
     Z.testbit (m_value (set_addr e p)) i = Z.testbit (m_value e) i)
  /\ is_present (set_addr e p) = is_present e
  /\ is_writable (set_addr e p) = is_writable e
  /\ is_user (set_addr e p) = is_user e
  /\ is_ps (set_addr e p) = is_ps e
  /\ get_available (set_addr e p) = get_available e.
Proof.
  split; [intros i Hi Hout; apply set_addr_other; assumption|].
  unfold is_present, is_writable, is_user, is_ps.
  rewrite !get_bit_testbit by lia.
  rewrite !set_addr_other by lia.
  repeat split.
  destruct e as [m], (set_addr (Entry m) p) as [m'] eqn:Hset.
  apply get_available_ext. intros i Hi.
  change m' with (m_value (Entry m')). rewrite <- Hset.
  apply (set_addr_other (Entry m)); lia.
Qed.

(** The five flag setters leave [addr()] and [get_available()] as they
    were. *)
Theorem flag_setters_keep_address (e : PageTableEntry) (v : bool) :
  (addr (set_present e v) = addr e
   /\ addr (set_writable e v) = addr e
   /\ addr (set_user e v) = addr e
   /\ addr (set_ps e v) = addr e
   /\ addr (set_execution_disabled e v) = addr e)
  /\ (get_available (set_present e v) = get_available e
      /\ get_available (set_writable e v) = get_available e
      /\ get_available (set_user e v) = get_available e
      /\ get_available (set_ps e v) = get_available e
      /\ get_available (set_execution_disabled e v) = get_available e).
Proof.
  destruct e as [m].
  unfold set_present, set_writable, set_user, set_ps, set_execution_disabled, set_bit.
  cbn [m_value].
  split; repeat split;
    first [ apply addr_ext | apply get_available_ext ];
    intros i Hi; apply math_set_bit_other; lia.
Qed.

(** Setting one flag leaves the reading of the other low flags. *)
Theorem flag_setters_independent (e : PageTableEntry) (v : bool) :
  (is_writable (set_present e v) = is_writable e
   /\ is_user (set_present e v) = is_user e
   /\ is_ps (set_present e v) = is_ps e)
  /\ (is_present (set_writable e v) = is_present e
      /\ is_user (set_writable e v) = is_user e
      /\ is_ps (set_writable e v) = is_ps e)
  /\ (is_present (set_user e v) = is_present e
      /\ is_writable (set_user e v) = is_writable e
      /\ is_ps (set_user e v) = is_ps e)
  /\ (is_present (set_ps e v) = is_present e
      /\ is_writable (set_ps e v) = is_writable e
      /\ is_user (set_ps e v) = is_user e)
  /\ (is_present (set_execution_disabled e v) = is_present e
      /\ is_writable (set_execution_disabled e v) = is_writable e
      /\ is_user (set_execution_disabled e v) = is_user e
      /\ is_ps (set_execution_disabled e v) = is_ps e).
Proof.
  unfold is_present, is_writable, is_user, is_ps, set_present, set_writable,
    set_user, set_ps, set_execution_disabled, set_bit.
  rewrite !get_bit_testbit by lia. cbn [m_value].
  repeat split; f_equal; apply math_set_bit_other; lia.
Qed.

(** [set_available] leaves [addr()] and the four low flags as they were,
    whatever the argument. *)
Theorem set_available_keeps_fields (e : PageTableEntry) (v : Z) :
  addr (set_available e v) = addr e
  /\ is_present (set_available e v) = is_present e
  /\ is_writable (set_available e v) = is_writable e
  /\ is_user (set_available e v) = is_user e
  /\ is_ps (set_available e v) = is_ps e.
Proof.
  split.
  - destruct e as [m], (set_available (Entry m) v) as [m'] eqn:Hset.
    apply addr_ext. intros i Hi.
    change m' with (m_value (Entry m')). rewrite <- Hset.
    apply (set_available_other (Entry m)); lia.
  - unfold is_present, is_writable, is_user, is_ps.
    rewrite !get_bit_testbit by lia.
    rewrite !set_available_other by lia. repeat split.
Qed.

(** [get_available] never reports bit 0: its result is an even [u16]. *)
Theorem get_available_even (e : PageTableEntry) :
  0 <= get_available e < 2 ^ 16 /\ Z.even (get_available e) = true.
Proof.
  split.
  - unfold get_available, u16. apply Z.mod_pos_bound. lia.
  - rewrite <- Z.negb_odd, <- Z.bit0_odd.
    unfold get_available. rewrite mask_FFE0, mask_1E.
    bits_of_ops. decide_comparisons. rewrite !andb_false_r. reflexivity.
Qed.

(** The last write wins: a second [set_addr] or [set_available] makes the
    entry what it alone would have made it. *)
Theorem setters_overwrite (e : PageTableEntry) (p q v w : Z) :
  0 <= v < 2 ^ 16 ->
  set_addr (set_addr e p) q = set_addr e q
  /\ set_available (set_available e v) w = set_available e w.
Proof.
  intros Hv. split.
  - unfold set_addr. cbn [m_value]. f_equal.
    replace (48 - 12) with 36 by reflexivity.
    apply Z.bits_inj'. intros i Hi.
    split_index i [12; 48; 64]%list; bitwise.
  - assert (Hv' : v = u16 v) by (symmetry; apply Z.mod_small; lia).
    unfold set_available. cbn [m_value]. f_equal. rewrite mask_1E, Hv'.
    apply Z.bits_inj'. intros i Hi.
    split_index i [8; 12; 52; 63; 64]%list; bitwise.
Qed.

Lemma setters_overwrite_witness :
  set_addr (set_addr (Entry 7) 0x5000) 0x9000 = set_addr (Entry 7) 0x9000
  /\ set_available (set_available (Entry 7) 0xfffe) 0x24
     = set_available (Entry 7) 0x24.
Proof. apply (setters_overwrite (Entry 7) 0x5000 0x9000 0xfffe 0x24). lia. Defined.

(** The setters keep the entry a [u64]. *)
Theorem setters_keep_u64 (e : PageTableEntry) (idx p a : Z) (v : bool) :
  0 <= m_value e < 2 ^ 64 ->
  0 <= m_value (set_bit e idx v) < 2 ^ 64
  /\ 0 <= m_value (set_addr e p) < 2 ^ 64
  /\ 0 <= m_value (set_available e a) < 2 ^ 64.
Proof.
  intros He. split; [|split]; apply u64_of_bits; intros i Hi;
    unfold set_bit, math_set_bit, set_addr, set_available; cbn [m_value];
    try destruct v; bits_of_ops;
    rewrite ?(testbit_u64_high (m_value e)) by lia;
    decide_comparisons; rewrite ?andb_false_r; reflexivity.
Qed.

Lemma setters_keep_u64_witness :
  0 <= m_value (set_bit (Entry 0xfff) 63 true) < 2 ^ 64
  /\ 0 <= m_value (set_addr (Entry 0xfff) (-1)) < 2 ^ 64
  /\ 0 <= m_value (set_available (Entry 0xfff) 0xffff) < 2 ^ 64.
Proof.
  apply (setters_keep_u64 (Entry 0xfff) 63 (-1) 0xffff true). cbn [m_value]. lia.
Defined.

End PageTableEntryFields.

(** ** HHDM conversions and the bitmap primitives *)

Section BitmapPrimitives.

Import PageBitmap.

(** The two HHDM conversions undo each other on every [u64], whatever
    [hhdm_base] holds, and their results are [u64] values. *)
Theorem hhdm_conversions_round_trip (s : kstate) (a : Z) :
  0 <= a < 2 ^ 64 ->
  virtual_to_physical s (physical_to_virtual s a) = a
  /\ physical_to_virtual s (virtual_to_physical s a) = a
  /\ 0 <= physical_to_virtual s a < 2 ^ 64
  /\ 0 <= virtual_to_physical s a < 2 ^ 64.
Proof.
  intros Ha. split; [apply virtual_to_physical_to_virtual, Ha|].
  split; [|split; apply u64_range].
  unfold virtual_to_physical, physical_to_virtual, u64.
  rewrite Zplus_mod_idemp_l. replace (a - hhdm_base s + hhdm_base s) with a by lia.
  apply Z.mod_small, Ha.
Qed.

Lemma hhdm_conversions_round_trip_witness :
  virtual_to_physical (KState higher_half []) (physical_to_virtual (KState higher_half []) 0x1000) = 0x1000
  /\ physical_to_virtual (KState higher_half []) (virtual_to_physical (KState higher_half []) 0x1000) = 0x1000
  /\ 0 <= physical_to_virtual (KState higher_half []) 0x1000 < 2 ^ 64
  /\ 0 <= virtual_to_physical (KState higher_half []) 0x1000 < 2 ^ 64.
Proof. apply (hhdm_conversions_round_trip (KState higher_half []) 0x1000). lia. Defined.

(** The bits of the mask of a bit position: the one bit below 31, bits 31 to
    63 at 31. *)
Lemma mask_bits (a x i : Z) :
  0 <= a -> shl_one_int a = Some x -> 0 <= i ->
  Z.testbit (u64 x) i
  = if a <? 31 then i =? a else (31 <=? i) && (i <? 64).
Proof.
  intros Ha Hx Hi. unfold shl_one_int in Hx.
  destruct (Z.ltb_spec a 31).
  - injection Hx as <-. rewrite testbit_u64, Z.pow2_bits_eqb by lia.
    destruct (Z.eqb_spec a i), (Z.eqb_spec i a); lia.
  - destruct (Z.eqb_spec a 31); [|discriminate]. injection Hx as <-.
    change (- 2 ^ 31) with (Z.lnot (Z.ones 31)).
    bits_of_ops. rewrite (proj2 (Z.leb_le 0 i)) by lia.
    destruct (Z.ltb_spec i 64), (Z.ltb_spec i 31), (Z.leb_spec 31 i);
      cbn [andb negb]; try reflexivity; lia.
Qed.

(** Masks of two different bit positions share no bit. *)
Lemma masks_disjoint (a b x y : Z) :
  0 <= a -> 0 <= b -> a <> b ->
  shl_one_int a = Some x -> shl_one_int b = Some y ->
  Z.land (u64 x) (u64 y) = 0.
Proof.
  intros Ha Hb Hne Hx Hy.
  assert (Ha32 : a < 32).
  { unfold shl_one_int in Hx. destruct (Z.ltb_spec a 31); [lia|].
    destruct (Z.eqb_spec a 31); [lia|discriminate]. }
  assert (Hb32 : b < 32).
  { unfold shl_one_int in Hy. destruct (Z.ltb_spec b 31); [lia|].
    destruct (Z.eqb_spec b 31); [lia|discriminate]. }
  apply Z.bits_inj'. intros i Hi.
  rewrite Z.land_spec, Z.bits_0, (mask_bits a x i), (mask_bits b y i) by assumption.
  destruct (Z.ltb_spec a 31), (Z.ltb_spec b 31), (Z.eqb_spec i a), (Z.eqb_spec i b),
    (Z.leb_spec 31 i), (Z.ltb_spec i 64); cbn [andb]; try reflexivity; lia.
Qed.

(** A write leaves the test of a disjoint mask as it was. *)
Lemma land_write_disjoint (w k kj : Z) (value : bool) :
  0 <= kj < 2 ^ 64 -> Z.land k kj = 0 ->
  Z.land (if value then Z.lor w k else Z.land w (u64 (Z.lnot k))) kj = Z.land w kj.
Proof.
  intros Hkj Hd. apply Z.bits_inj'. intros i Hi.
  destruct (Z.testbit kj i) eqn:Hb.
  - assert (Hk : Z.testbit k i = false).
    { apply (f_equal (λ z, Z.testbit z i)) in Hd.
      rewrite Z.land_spec, Hb, Z.bits_0, andb_true_r in Hd. exact Hd. }
    assert (Hi64 : i < 64).
    { destruct (Z.lt_ge_cases i 64); [assumption|].
      rewrite (testbit_u64_high kj i) in Hb by lia. discriminate. }
    destruct value; bits_of_ops; rewrite Hb, Hk;
      rewrite ?(proj2 (Z.ltb_lt i 64)), ?(proj2 (Z.leb_le 0 i)) by lia;
      cbn [andb negb]; rewrite ?orb_false_r, ?andb_true_r; reflexivity.
  - rewrite !Z.land_spec, Hb, !andb_false_r. reflexivity.
Qed.

(** [set(i, value)] returns the bitmap with bit [i] reading [value] and the
    same number of words. *)
Theorem bitmap_get_after_set (m m' : list Z) (i : Z) (value : bool) :
  set m i value = Some m' ->
  get m' i = Some value /\ length m' = length m.
Proof.
  intros Hset. split; [eapply get_set | eapply set_length]; exact Hset.
Qed.

Lemma bitmap_get_after_set_witness :
  get [0x80000005; 7] 1 = Some false /\ length [0x80000005; 7] = length [0x80000007; 7].
Proof.
  apply (bitmap_get_after_set [0x80000007; 7] [0x80000005; 7] 1 false). reflexivity.
Defined.

Lemma get_set_other (m m' : list Z) (i j : Z) (value : bool) :
  0 <= i -> 0 <= j -> i <> j ->
  set m i value = Some m' -> get m' j = get m j.
Proof.
  intros Hi Hj Hne. unfold set, get, bits_per_element.
  destruct (shl_one_int (i mod 64)) as [one|] eqn:Hone; [|discriminate].
  destruct (m !! Z.to_nat (i / 64)) as [w|] eqn:Hw; [|discriminate].
  intros [= <-].
  destruct (shl_one_int (j mod 64)) as [onej|] eqn:Honej; [|reflexivity].
  destruct (decide (Z.to_nat (i / 64) = Z.to_nat (j / 64))) as [Heq|Hword].
  - rewrite <- Heq, Hw.
    rewrite list_lookup_insert_eq by (eapply lookup_lt_Some; exact Hw).
    do 3 f_equal. apply land_write_disjoint.
    + pose proof (shl_one_int_mask _ _ (Z.mod_pos _ 64 ltac:(lia)) Honej). lia.
    + apply (masks_disjoint (i mod 64) (j mod 64)); try assumption;
        try (apply Z.mod_pos; lia).
      intros Hmod. apply Hne.
      assert (i / 64 = j / 64).
      { assert (0 <= i / 64) by (apply Z.div_pos; lia).
        assert (0 <= j / 64) by (apply Z.div_pos; lia). lia. }
      rewrite (Z.div_mod i 64), (Z.div_mod j 64) by lia. congruence.
  - rewrite list_lookup_insert_ne by assumption. reflexivity.
Qed.

(** A write at one index leaves the reading of every other index. *)
Theorem bitmap_set_other (m m' : list Z) (i j : Z) (value : bool) :
  0 <= i -> 0 <= j -> i <> j ->
  set m i value = Some m' -> get m' j = get m j.
Proof. apply get_set_other. Qed.

Lemma bitmap_set_other_witness :
  get [0x80000007; 7] 31 = get [0x80000005; 7] 31.
Proof.
  apply (bitmap_set_other [0x80000005; 7] [0x80000007; 7] 1 31 true);
    [lia | lia | lia | reflexivity].
Defined.

(** After [clear()] the span has the same words, and every bit that can be
    read reads clear. *)
Theorem bitmap_clear_reads_clear (m : list Z) (i : Z) :
  length (clear m) = length m
  /\ (is_Some (get m i) -> get (clear m) i = Some false).
Proof.
  split; [apply length_fmap|].
  unfold get, clear, bits_per_element.
  destruct (shl_one_int (i mod 64)) as [one|]; [|intros [? [=]]].
  rewrite list_lookup_fmap.
  destruct (m !! Z.to_nat (i / 64)) as [w|]; [|intros [? [=]]].
  intros _. reflexivity.
Qed.

End BitmapPrimitives.

(** ** [init]: when it halts and what it leaves *)

Section InitOutcome.

(** The second loop of [init] over entries that are all too short. *)
Lemma find_bitmap_region_none (s : kstate) (size : Z)
    (mm : list Limine.memmap_entry) (sk : Z) :
  Forall (λ e, usable e = true -> Limine.length e < size) mm ->
  (find_bitmap_region s size mm sk).2 = 0.
Proof.
  intros H. revert sk. induction H as [|e rest He _ IH]; intros sk;
    cbn [find_bitmap_region]; [reflexivity|].
  destruct (usable e); [|apply IH].
  destruct (Z.leb_spec size (Limine.length e)); [|apply IH].
  specialize (He eq_refl). lia.
Qed.

(** The second loop of [init] stops at the first usable entry long enough. *)
Lemma find_bitmap_region_at (s : kstate) (size : Z)
    (pre post : list Limine.memmap_entry) (e : Limine.memmap_entry) (sk : Z) :
  Forall (λ e', usable e' = true -> Limine.length e' < size) pre ->
  usable e = true -> size <= Limine.length e ->
  (find_bitmap_region s size (pre ++ e :: post) sk).2
  = physical_to_virtual s (Limine.base e).
Proof.
  intros H Hu Hle. revert sk. induction H as [|e' pre He' _ IH]; intros sk;
    cbn [app find_bitmap_region].
  - rewrite Hu, (proj2 (Z.leb_le _ _)) by exact Hle. reflexivity.
  - destruct (usable e'); [|apply IH].
    destruct (Z.leb_spec size (Limine.length e')); [|apply IH].
    specialize (He' eq_refl). lia.
Qed.

(** Every memory map is of one of the two kinds. *)
Lemma memmap_host_cases (size : Z) (mm : list Limine.memmap_entry) :
  Forall (λ e, usable e = true -> Limine.length e < size) mm
  \/ exists pre e post,
       mm = pre ++ e :: post /\ usable e = true /\ size <= Limine.length e
       /\ Forall (λ e', usable e' = true -> Limine.length e' < size) pre.
Proof.
  induction mm as [|e rest IH]; [left; constructor|].
  destruct (usable e) eqn:Hu.
  - destruct (Z.le_gt_cases size (Limine.length e)) as [Hle|Hgt].
    + right. exists [], e, rest. repeat split; try assumption. constructor.
    + destruct IH as [IH|(pre & e1 & post & -> & Hu1 & Hle & Hpre)].
      * left. constructor; [intros _; lia | exact IH].
      * right. exists (e :: pre), e1, post. repeat split; try assumption.
        constructor; [intros _; lia | exact Hpre].
  - destruct IH as [IH|(pre & e1 & post & -> & Hu1 & Hle & Hpre)].
    + left. constructor; [rewrite Hu; discriminate | exact IH].
    + right. exists (e :: pre), e1, post. repeat split; try assumption.
      constructor; [rewrite Hu; discriminate | exact Hpre].
Qed.

(** [init] halts, before it touches the bitmap, when a firmware response is
    missing; with both responses it halts exactly when no usable entry is
    [bitmap_array_size] bytes long or the first such entry has the HHDM
    address 0, and then [hhdm_base] is already set. *)
Theorem init_halts_exactly (req : Limine.requests) (s : kstate) :
  (Limine.memmap_response req = None \/ Limine.hhdm_response req = None ->
   init req s = Halted s)
  /\ (forall mm offset,
        Limine.memmap_response req = Some mm ->
        Limine.hhdm_response req = Some offset ->
        ((exists s', init req s = Halted s')
         <-> (Forall (λ e, usable e = true ->
                           Limine.length e < bitmap_array_size mm) mm
              \/ exists pre e post,
                   mm = pre ++ e :: post /\ usable e = true
                   /\ bitmap_array_size mm <= Limine.length e
                   /\ Forall (λ e', usable e' = true ->
                                    Limine.length e' < bitmap_array_size mm) pre
                   /\ u64 (Limine.base e + offset) = 0))
        /\ (forall s', init req s = Halted s' -> s' = KState offset (bitmap s))).
Proof.
  split.
  - unfold init. intros [-> | ->]; [reflexivity|].
    destruct (Limine.memmap_response req); reflexivity.
  - intros mm offset Hmm Hoff. unfold init. rewrite Hmm, Hoff.
    set (s1 := KState offset (bitmap s)).
    set (size := bitmap_array_size mm).
    destruct (find_bitmap_region s1 size mm 0) as [sk addr] eqn:Hfind.
    assert (Haddr : addr = (find_bitmap_region s1 size mm 0).2)
      by (rewrite Hfind; reflexivity).
    split.
    + split.
      * intros [s' Hhalt].
        assert (H0 : addr = 0).
        { destruct (Z.eqb_spec addr 0); [assumption|].
          destruct (mark_bitmap_pages _ _ _ _); discriminate. }
        destruct (memmap_host_cases size mm)
          as [Hall|(pre & e & post & Heq & Hu & Hle & Hpre)]; [left; exact Hall|].
        right. exists pre, e, post. repeat split; try assumption.
        rewrite Heq, (find_bitmap_region_at s1) in Haddr by assumption.
        unfold physical_to_virtual in Haddr. cbn [hhdm_base s1] in Haddr. congruence.
      * intros [Hall|(pre & e & post & Heq & Hu & Hle & Hpre & Hnull)].
        -- rewrite (find_bitmap_region_none s1) in Haddr by exact Hall.
           subst addr. cbn [Z.eqb]. eauto.
        -- rewrite Heq, (find_bitmap_region_at s1) in Haddr by assumption.
           unfold physical_to_virtual in Haddr. cbn [hhdm_base s1] in Haddr.
           rewrite Hnull in Haddr. subst addr. cbn [Z.eqb]. eauto.
    + intros s'. destruct (addr =? 0); [intros [= <-]; reflexivity|].
      destruct (mark_bitmap_pages _ _ _ _); discriminate.
Qed.

(** The third loop of [init] keeps the number of words, and the reading of
    every index it does not mark. *)
Lemma mark_bitmap_pages_length (n : nat) (i sk : Z) (m m' : list Z) :
  mark_bitmap_pages n i sk m = Some m' -> length m' = length m.
Proof.
  revert i m. induction n as [|n IH]; intros i m; cbn [mark_bitmap_pages].
  - intros [= <-]. reflexivity.
  - destruct (PageBitmap.set m (u64 (i + sk)) true) as [m1|] eqn:Hset; [|discriminate].
    intros Hmark. rewrite (IH _ _ Hmark). eapply set_length. exact Hset.
Qed.

Lemma mark_bitmap_pages_other (n : nat) (i sk : Z) (m m' : list Z) (j : Z) :
  mark_bitmap_pages n i sk m = Some m' -> 0 <= j ->
  (forall t, i <= t < i + Z.of_nat n -> j <> u64 (t + sk)) ->
  PageBitmap.get m' j = PageBitmap.get m j.
Proof.
  revert i m. induction n as [|n IH]; intros i m; cbn [mark_bitmap_pages].
  - intros [= <-] _ _. reflexivity.
  - destruct (PageBitmap.set m (u64 (i + sk)) true) as [m1|] eqn:Hset; [|discriminate].
    intros Hmark Hj Hother.
    rewrite (IH _ _ Hmark Hj) by (intros t Ht; apply Hother; lia).
    eapply get_set_other; [apply u64_range | exact Hj | | exact Hset].
    intros Heq. apply (Hother i); [lia | symmetry; exact Heq].
Qed.

(** A cleared span reads clear wherever it can be read. *)
Lemma get_clear (m : list Z) (j : Z) (b : bool) :
  PageBitmap.get (PageBitmap.clear m) j = Some b -> b = false.
Proof.
  unfold PageBitmap.get, PageBitmap.clear.
  destruct (shl_one_int _); [|discriminate].
  rewrite list_lookup_fmap. destruct (m !! _); [|discriminate].
  intros [= <-]. reflexivity.
Qed.

(** After [init] returns, [hhdm_base] is the firmware's offset, the bitmap
    has [bitmap_array_size / 8] words, all of them [u64] values, and every
    frame index that can be read, other than those of the bitmap's own
    pages, reads free. *)
Theorem init_leaves_other_frames_free (req : Limine.requests)
    (mm : list Limine.memmap_entry) (offset : Z) (s s0 : kstate) :
  Limine.memmap_response req = Some mm ->
  Limine.hhdm_response req = Some offset ->
  init req s = Ret tt s0 ->
  hhdm_base s0 = offset
  /\ length (bitmap s0) = Z.to_nat (bitmap_array_size mm / 8)
  /\ words_ok (bitmap s0) = true
  /\ forall j, 0 <= j -> is_Some (PageBitmap.get (bitmap s0) j) ->
       (forall i, 0 <= i < bitmap_page_size mm ->
          j <> u64 (i + skipped_pages offset mm)) ->
       PageBitmap.get (bitmap s0) j = Some false.
Proof.
  intros Hmm Hoff Hinit.
  pose proof (init_words_ok _ _ _ Hinit) as Hok.
  destruct (init_Ret _ _ _ Hinit)
    as (mm' & offset' & sk & addr & m' & Hmm' & Hoff' & Hfind & Hne & Hmark & ->).
  rewrite Hmm in Hmm'. injection Hmm' as <-.
  rewrite Hoff in Hoff'. injection Hoff' as <-.
  cbn [hhdm_base bitmap] in *.
  assert (Hsk : skipped_pages offset mm = sk).
  { unfold skipped_pages.
    rewrite (find_bitmap_region_hhdm _ (KState offset (bitmap s))) by reflexivity.
    rewrite Hfind. reflexivity. }
  split; [reflexivity|]. split; [|split; [exact Hok|]].
  - rewrite (mark_bitmap_pages_length _ _ _ _ _ Hmark).
    unfold PageBitmap.clear, PageBitmap.make.
    rewrite length_fmap, length_replicate. reflexivity.
  - intros j Hj [b Hb] Hother. rewrite Hsk in Hother.
    rewrite (mark_bitmap_pages_other _ _ _ _ _ j Hmark Hj) in Hb |- *
      by (intros t Ht; apply Hother; lia).
    rewrite Hb. f_equal. eapply get_clear. exact Hb.
Qed.

(** The theorem on [boot64]. *)
Lemma init_leaves_other_frames_free_witness :
  hhdm_base (KState higher_half [1]) = higher_half
  /\ length (bitmap (KState higher_half [1])) = 1%nat.
Proof.
  destruct (init_leaves_other_frames_free boot64 _ higher_half boot_state
              (KState higher_half [1]) eq_refl eq_refl eq_refl)
    as (H1 & H2 & _).
  split; [exact H1 | exact H2].
Defined.

End InitOutcome.

(** ** [allocate_page] and [free_page]: first fit and frame effects *)

Section AllocatorCalls.

(** The inner loop passes over set bits only, and stops on a clear one or
    at the end of the region. *)
Lemma scan_region_first_fit (fuel : nat) (m : list Z) (e : Limine.memmap_entry)
    (size pi pa pi' pa' : Z) :
  64 * Z.of_nat (length m) < 2 ^ 64 -> 0 <= pi ->
  scan_region fuel m e size pi pa = Some (pi', pa') ->
  pi <= pi'
  /\ (forall j, pi <= j < pi' -> PageBitmap.get m j = Some true)
  /\ (pa' = pa \/ PageBitmap.get m pi' = Some false).
Proof.
  intros Hspan. revert size pi.
  induction fuel as [|fuel IH]; intros size pi Hpi; cbn [scan_region]; [discriminate|].
  destruct (size <=? Limine.length e).
  - destruct (PageBitmap.get m pi) as [[|]|] eqn:Hget; [| |discriminate].
    + pose proof (get_in_span _ _ _ Hpi Hget) as Hin.
      rewrite (u64_small (pi + 1)) by lia.
      intros H. apply IH in H; [|lia]. destruct H as (Hle & Hall & Hend).
      split; [lia|]. split; [|exact Hend].
      intros j Hj. destruct (Z.eq_dec j pi) as [->|]; [exact Hget|]. apply Hall. lia.
    + intros [= <- <-]. split; [lia|]. split; [intros j Hj; lia|]. right. exact Hget.
  - intros [= <- <-]. split; [lia|]. split; [intros j Hj; lia|]. left. reflexivity.
Qed.

(** The loops of [allocate_page] pass over set bits only: a page address
    other than 0 comes with the lowest frame index that reads clear. *)
Lemma scan_entries_first_fit (m : list Z) (mm : list Limine.memmap_entry)
    (pi pi' pa' : Z) :
  64 * Z.of_nat (length m) < 2 ^ 64 -> 0 <= pi ->
  scan_entries m mm pi 0 = Some (pi', pa') ->
  pi <= pi'
  /\ (forall j, pi <= j < pi' -> PageBitmap.get m j = Some true)
  /\ (pa' = 0 \/ PageBitmap.get m pi' = Some false).
Proof.
  intros Hspan. revert pi. induction mm as [|e rest IH]; intros pi Hpi;
    cbn [scan_entries].
  - intros [= <- <-]. split; [lia|]. split; [intros j Hj; lia|]. left. reflexivity.
  - destruct (usable e); [|apply IH, Hpi].
    destruct (scan_region (scan_fuel m) m e PAGE_SIZE pi 0) as [[pi1 pa1]|] eqn:Hscan;
      [|discriminate].
    apply scan_region_first_fit in Hscan; [|exact Hspan|exact Hpi].
    destruct Hscan as (Hle & Hall & Hend).
    destruct (Z.eqb_spec pa1 0) as [->|Hne]; cbn [negb].
    + intros H. apply IH in H; [|lia]. destruct H as (Hle' & Hall' & Hend').
      split; [lia|]. split; [|exact Hend'].
      intros j Hj. destruct (Z.lt_ge_cases j pi1); [apply Hall | apply Hall']; lia.
    + intros [= <- <-]. split; [exact Hle|]. split; [exact Hall|]. exact Hend.
Qed.

(** First fit: the bit [allocate_page] sets is the lowest frame index
    that reads free, whatever the memory map. *)
Theorem allocate_page_first_fit (req : Limine.requests) (s s1 : kstate) (p : Z) :
  64 * Z.of_nat (length (bitmap s)) < 2 ^ 64 ->
  allocate_page req s = Ret p s1 ->
  exists pi,
    0 <= pi
    /\ (forall j, 0 <= j < pi -> PageBitmap.get (bitmap s) j = Some true)
    /\ PageBitmap.get (bitmap s) pi = Some false
    /\ PageBitmap.set (bitmap s) pi true = Some (bitmap s1).
Proof.
  intros Hspan Halloc.
  destruct (allocate_page_Ret _ _ _ _ Halloc)
    as (mm & pi & pa & m1 & _ & Hscan & Hne & Hset & _ & ->).
  apply scan_entries_first_fit in Hscan; [|exact Hspan|lia].
  destruct Hscan as (Hle & Hall & [H0|Hclear]); [contradiction|].
  exists pi. repeat split; try assumption; lia.
Qed.

Lemma allocate_page_first_fit_witness :
  exists pi,
    0 <= pi
    /\ (forall j, 0 <= j < pi -> PageBitmap.get [7] j = Some true)
    /\ PageBitmap.get [7] pi = Some false
    /\ PageBitmap.set [7] pi true = Some [15].
Proof.
  apply (allocate_page_first_fit boot64 (KState higher_half [7])
           (KState higher_half [15]) (higher_half + 0x103000));
    [cbn; lia | reflexivity].
Defined.

(** The frame index the loops of [allocate_page] end with is not negative. *)
Lemma scan_region_index (fuel : nat) (m : list Z) (e : Limine.memmap_entry)
    (size pi pa pi' pa' : Z) :
  0 <= pi -> scan_region fuel m e size pi pa = Some (pi', pa') -> 0 <= pi'.
Proof.
  revert size pi. induction fuel as [|fuel IH]; intros size pi Hpi;
    cbn [scan_region]; [discriminate|].
  destruct (size <=? Limine.length e).
  - destruct (PageBitmap.get m pi) as [[|]|]; [|intros [= <- _]; exact Hpi|discriminate].
    apply IH. apply u64_range.
  - intros [= <- _]. exact Hpi.
Qed.

Lemma scan_entries_index (m : list Z) (mm : list Limine.memmap_entry)
    (pi pa pi' pa' : Z) :
  0 <= pi -> scan_entries m mm pi pa = Some (pi', pa') -> 0 <= pi'.
Proof.
  revert pi pa. induction mm as [|e rest IH]; intros pi pa Hpi; cbn [scan_entries].
  - intros [= <- _]. exact Hpi.
  - destruct (usable e); [|apply IH, Hpi].
    destruct (scan_region (scan_fuel m) m e PAGE_SIZE pi pa) as [[pi1 pa1]|] eqn:Hscan;
      [|discriminate].
    apply scan_region_index in Hscan; [|exact Hpi].
    destruct (negb (pa1 =? 0)); [intros [= <- _]; exact Hscan | apply IH, Hscan].
Qed.

(** [allocate_page] sets one bit: [hhdm_base], the number of words and the
    reading of every other frame index stay as they were. *)
Theorem allocate_page_touches_one_frame (req : Limine.requests)
    (s s1 : kstate) (p : Z) :
  allocate_page req s = Ret p s1 ->
  hhdm_base s1 = hhdm_base s
  /\ length (bitmap s1) = length (bitmap s)
  /\ exists pi,
       0 <= pi
       /\ PageBitmap.get (bitmap s1) pi = Some true
       /\ forall j, 0 <= j -> j <> pi ->
            PageBitmap.get (bitmap s1) j = PageBitmap.get (bitmap s) j.
Proof.
  intros Halloc.
  destruct (allocate_page_Ret _ _ _ _ Halloc)
    as (mm & pi & pa & m1 & _ & Hscan & Hne & Hset & _ & ->).
  cbn [hhdm_base bitmap].
  split; [reflexivity|]. split; [eapply set_length; exact Hset|].
  pose proof (scan_entries_index (bitmap s) mm 0 0 pi pa ltac:(lia) Hscan) as Hpi.
  exists pi. split; [exact Hpi|]. split; [eapply get_set; exact Hset|].
  intros j Hj Hother. eapply get_set_other; [exact Hpi|exact Hj| |exact Hset].
  intros Heq. apply Hother. symmetry. exact Heq.
Qed.

Lemma allocate_page_touches_one_frame_witness :
  hhdm_base (KState higher_half [15]) = hhdm_base (KState higher_half [7])
  /\ length (bitmap (KState higher_half [15])) = length (bitmap (KState higher_half [7]))
  /\ exists pi,
       0 <= pi
       /\ PageBitmap.get (bitmap (KState higher_half [15])) pi = Some true
       /\ forall j, 0 <= j -> j <> pi ->
            PageBitmap.get (bitmap (KState higher_half [15])) j
            = PageBitmap.get (bitmap (KState higher_half [7])) j.
Proof.
  apply (allocate_page_touches_one_frame boot64 (KState higher_half [7])
           (KState higher_half [15]) (higher_half + 0x103000)).
  reflexivity.
Defined.

(** What a returning [free_page] leaves. *)
Lemma free_page_frame (req : Limine.requests)
    (mm : list Limine.memmap_entry) (s s1 : kstate) (p : Z) :
  Limine.memmap_response req = Some mm ->
  free_page req p s = Ret tt s1 ->
  hhdm_base s1 = hhdm_base s
  /\ length (bitmap s1) = length (bitmap s)
  /\ PageBitmap.get (bitmap s1) (frame_index mm (virtual_to_physical s p)) = Some false
  /\ forall j, 0 <= j -> j <> frame_index mm (virtual_to_physical s p) ->
       PageBitmap.get (bitmap s1) j = PageBitmap.get (bitmap s) j.
Proof.
  intros Hmm. unfold free_page, frame_index. rewrite Hmm.
  destruct (negb (p mod PAGE_SIZE =? 0)); [discriminate|].
  pose proof (find_page_nonneg mm (virtual_to_physical s p) 0 ltac:(lia)) as Hidx.
  destruct (find_page mm (virtual_to_physical s p) 0) as [idx found].
  cbn [fst] in *.
  destruct (negb found); [discriminate|].
  destruct (PageBitmap.set (bitmap s) idx false) as [m1|] eqn:Hset; [|discriminate].
  intros [= <-]. cbn [hhdm_base bitmap].
  split; [reflexivity|]. split; [eapply set_length; exact Hset|].
  split; [eapply get_set; exact Hset|].
  intros j Hj Hother. eapply get_set_other; [exact Hidx|exact Hj| |exact Hset].
  intros Heq. apply Hother. symmetry. exact Heq.
Qed.

(** [free_page] clears one bit, that of the frame index it computes:
    [hhdm_base], the number of words and the reading of every other frame
    index stay as they were. *)
Theorem free_page_touches_one_frame (req : Limine.requests)
    (mm : list Limine.memmap_entry) (s s1 : kstate) (p : Z) :
  Limine.memmap_response req = Some mm ->
  free_page req p s = Ret tt s1 ->
  hhdm_base s1 = hhdm_base s
  /\ length (bitmap s1) = length (bitmap s)
  /\ PageBitmap.get (bitmap s1) (frame_index mm (virtual_to_physical s p)) = Some false
  /\ forall j, 0 <= j -> j <> frame_index mm (virtual_to_physical s p) ->
       PageBitmap.get (bitmap s1) j = PageBitmap.get (bitmap s) j.
Proof. exact (free_page_frame req mm s s1 p). Qed.

Lemma free_page_touches_one_frame_witness :
  PageBitmap.get [13] 1 = Some false.
Proof.
  apply (free_page_touches_one_frame boot64 _ (KState higher_half [15])
           (KState higher_half [13]) (higher_half + 0x101000) eq_refl eq_refl).
Defined.

(** The HHDM conversion reads the state only for [hhdm_base]. *)
Lemma virtual_to_physical_hhdm (s s' : kstate) (a : Z) :
  hhdm_base s = hhdm_base s' -> virtual_to_physical s a = virtual_to_physical s' a.
Proof. unfold virtual_to_physical. intros ->. reflexivity. Qed.

(** Over a well-formed memory map, what a returning [allocate_page] did in
    terms of the pointer it returned. *)
Lemma allocate_page_frame (req : Limine.requests) (mm : list Limine.memmap_entry)
    (s s1 : kstate) (p : Z) :
  Limine.memmap_response req = Some mm ->
  well_formed mm = true ->
  hhdm_ok (hhdm_base s) = true ->
  allocate_page req s = Ret p s1 ->
  p mod PAGE_SIZE = 0
  /\ inside_usable mm (virtual_to_physical s p) = true
  /\ virtual_to_physical s p mod PAGE_SIZE = 0
  /\ virtual_to_physical s p <> 0
  /\ PageBitmap.get (bitmap s) (frame_index mm (virtual_to_physical s p)) = Some false
  /\ PageBitmap.set (bitmap s) (frame_index mm (virtual_to_physical s p)) true
     = Some (bitmap s1)
  /\ hhdm_base s1 = hhdm_base s.
Proof.
  intros Hmm Hwf (Hh & Hhal)%hhdm_ok_inv Halloc.
  destruct (allocate_page_Ret _ _ _ _ Halloc)
    as (mm' & pi & pa & m1 & Hmm' & Hscan & Hne & Hset & -> & ->).
  rewrite Hmm in Hmm'. injection Hmm' as <-.
  destruct (scan_entries_spec (bitmap s) mm 0 pi pa Hwf ltac:(lia) Hscan Hne)
    as (pre & e & post & k & -> & Hu & Hk & Hpa & Hpi & Hget).
  pose proof (region_ok_inv e (well_formed_middle _ _ _ Hwf Hu))
    as (Hb & Hl & Hb0 & Hl0 & Hend).
  unfold PAGE_SIZE in Hk, Hpa.
  assert (Hkl : 4096 * k < Limine.length e).
  { apply Z.lt_le_trans with (4096 * (Limine.length e / 4096)); [lia|].
    apply Z.mul_div_le. lia. }
  assert (Hpar : 0 <= pa < 2 ^ 64) by lia.
  assert (Hin : Limine.base e <= pa < Limine.base e + Limine.length e) by lia.
  rewrite (virtual_to_physical_to_virtual s pa Hpar).
  assert (Hidx : frame_index (pre ++ e :: post) pa = pi).
  { unfold frame_index. rewrite find_page_in_region by assumption. cbn [fst].
    rewrite Hpi. f_equal. rewrite Hpa.
    replace (Limine.base e + 4096 * k - Limine.base e) with (k * 4096) by lia.
    unfold PAGE_SIZE. rewrite Z.div_mul by lia. reflexivity. }
  rewrite Hidx. cbn [bitmap hhdm_base].
  split; [|split; [|split; [|split; [exact Hne|split; [exact Hget|split; [exact Hset|reflexivity]]]]]].
  - unfold physical_to_virtual. apply u64_aligned.
    unfold PAGE_SIZE in *. clear - Hhal Hb Hpa.
    Z.to_euclidean_division_equations. lia.
  - rewrite <- find_page_found with (i := 0).
    rewrite find_page_in_region by assumption. reflexivity.
  - unfold PAGE_SIZE in *. clear - Hb Hpa. Z.to_euclidean_division_equations. lia.
Qed.

(** Over a well-formed memory map the pointer [allocate_page] returns is
    page-aligned, is the HHDM address of a page inside a usable region, not
    the page at physical address 0, and the bit set is the one of the frame
    index [free_page] computes for it. *)
Theorem allocate_page_pointer (req : Limine.requests)
    (mm : list Limine.memmap_entry) (s s1 : kstate) (p : Z) :
  Limine.memmap_response req = Some mm ->
  well_formed mm = true ->
  hhdm_ok (hhdm_base s) = true ->
  allocate_page req s = Ret p s1 ->
  p mod PAGE_SIZE = 0
  /\ inside_usable mm (virtual_to_physical s p) = true
  /\ virtual_to_physical s p mod PAGE_SIZE = 0
  /\ 0 < virtual_to_physical s p
  /\ PageBitmap.get (bitmap s) (frame_index mm (virtual_to_physical s p)) = Some false
  /\ PageBitmap.get (bitmap s1) (frame_index mm (virtual_to_physical s p)) = Some true.
Proof.
  intros Hmm Hwf Hh Halloc.
  destruct (allocate_page_frame _ _ _ _ _ Hmm Hwf Hh Halloc)
    as (H1 & H2 & H3 & H4 & H5 & H6 & _).
  repeat split; try assumption.
  - pose proof (u64_range (p - hhdm_base s)). unfold virtual_to_physical in *. lia.
  - eapply get_set. exact H6.
Qed.

Lemma allocate_page_pointer_witness :
  (higher_half + 0x103000) mod PAGE_SIZE = 0
  /\ virtual_to_physical (KState higher_half [7]) (higher_half + 0x103000) = 0x103000.
Proof.
  destruct (allocate_page_pointer boot64 _ (KState higher_half [7])
              (KState higher_half [15]) (higher_half + 0x103000)
              eq_refl eq_refl eq_refl eq_refl) as (H1 & _).
  split; [exact H1 | reflexivity].
Defined.

(** Frames whose bit reads set are not handed out by the calls that
    follow. *)
Lemma allocate_pages_avoid (req : Limine.requests) (mm : list Limine.memmap_entry)
    (n : nat) (s s' : kstate) (ps : list Z) (x : Z) :
  Limine.memmap_response req = Some mm ->
  well_formed mm = true ->
  hhdm_ok (hhdm_base s) = true ->
  allocate_pages req n s = Ret ps s' ->
  PageBitmap.get (bitmap s) x = Some true ->
  forall q, q ∈ ps -> frame_index mm (virtual_to_physical s q) <> x.
Proof.
  intros Hmm Hwf. revert s ps. induction n as [|n IH]; intros s ps Hh;
    cbn [allocate_pages].
  - intros [= <- _] _ q Hq. apply elem_of_nil in Hq. contradiction.
  - destruct (allocate_page req s) as [p s1| |] eqn:Halloc; cbn [and_then];
      [|discriminate..].
    destruct (allocate_pages req n s1) as [ps1 s2| |] eqn:Hrest; cbn [and_then];
      [|discriminate..].
    intros [= <- <-] Hx q Hq.
    destruct (allocate_page_frame _ _ _ _ _ Hmm Hwf Hh Halloc)
      as (_ & _ & _ & _ & Hclear & Hset & Hhh).
    apply elem_of_cons in Hq as [->|Hq].
    + intros Heq. rewrite Heq, Hx in Hclear. discriminate.
    + rewrite (virtual_to_physical_hhdm s s1) by (symmetry; exact Hhh).
      eapply IH; [rewrite Hhh; exact Hh | exact Hrest | | exact Hq].
      eapply get_true_set_true; [exact Hx | exact Hset].
Qed.

(** Bitmap allocation uniqueness: over a well-formed memory map, the
    pointers a run of [allocate_page] calls returns, with no [free_page] in
    between, are pairwise different. *)
Theorem allocate_pages_distinct (req : Limine.requests)
    (mm : list Limine.memmap_entry) (n : nat) (s s' : kstate) (ps : list Z) :
  Limine.memmap_response req = Some mm ->
  well_formed mm = true ->
  hhdm_ok (hhdm_base s) = true ->
  allocate_pages req n s = Ret ps s' ->
  NoDup ps /\ Forall (λ p, p mod PAGE_SIZE = 0) ps.
Proof.
  intros Hmm Hwf. revert s ps. induction n as [|n IH]; intros s ps Hh;
    cbn [allocate_pages].
  - intros [= <- _]. split; constructor.
  - destruct (allocate_page req s) as [p s1| |] eqn:Halloc; cbn [and_then];
      [|discriminate..].
    destruct (allocate_pages req n s1) as [ps1 s2| |] eqn:Hrest; cbn [and_then];
      [|discriminate..].
    intros [= <- <-].
    destruct (allocate_page_frame _ _ _ _ _ Hmm Hwf Hh Halloc)
      as (Hal & _ & _ & _ & Hclear & Hset & Hhh).
    assert (Hh1 : hhdm_ok (hhdm_base s1) = true) by (rewrite Hhh; exact Hh).
    destruct (IH _ _ Hh1 Hrest) as [Hnd Hall].
    split; [|constructor; assumption].
    constructor; [|exact Hnd].
    intros Hin.
    apply (allocate_pages_avoid _ _ _ _ _ _
             (frame_index mm (virtual_to_physical s p)) Hmm Hwf Hh1 Hrest) in Hin.
    + apply Hin. rewrite (virtual_to_physical_hhdm s1 s) by exact Hhh. reflexivity.
    + eapply get_set. exact Hset.
Qed.

Lemma allocate_pages_distinct_witness :
  NoDup [higher_half + 0x101000; higher_half + 0x102000; higher_half + 0x103000]
  /\ Forall (λ p, p mod PAGE_SIZE = 0)
       [higher_half + 0x101000; higher_half + 0x102000; higher_half + 0x103000].
Proof.
  apply (allocate_pages_distinct boot64 _ 3 (KState higher_half [1])
           (KState higher_half [15]) _ eq_refl eq_refl eq_refl eq_refl).
Defined.

End AllocatorCalls.

Section OutOfMemory.

Lemma frames_in_nonneg (mm : list Limine.memmap_entry) :
  well_formed mm = true -> 0 <= frames_in mm.
Proof.
  induction mm as [|e rest IH]; cbn [frames_in fold_right]; [lia|].
  intros (Hrest & He)%well_formed_cons. specialize (IH Hrest).
  fold (frames_in rest). destruct (usable e); [|exact IH].
  destruct (He eq_refl) as [(_ & _ & _ & Hl & _)%region_ok_inv _].
  unfold PAGE_SIZE. assert (H4 : 0 < 4096) by lia.
  pose proof (Z.div_pos (Limine.length e) 4096 Hl H4). lia.
Qed.

(** The inner loop over a region whose frames all read set ends past the
    region without a candidate. *)
Lemma scan_region_all_set (fuel : nat) (m : list Z) (e : Limine.memmap_entry)
    (j pi pa0 : Z) :
  region_ok e = true -> 64 * Z.of_nat (length m) < 2 ^ 64 ->
  0 <= j -> PAGE_SIZE * j <= Limine.length e -> 0 <= pi ->
  Limine.length e / PAGE_SIZE - j < Z.of_nat fuel ->
  (forall i, pi <= i < pi + (Limine.length e / PAGE_SIZE - j) ->
     PageBitmap.get m i = Some true) ->
  scan_region fuel m e (PAGE_SIZE * (j + 1)) pi pa0
  = Some (pi + (Limine.length e / PAGE_SIZE - j), pa0).
Proof.
  intros (Hb & Hl & Hb0 & Hl0 & Hend)%region_ok_inv Hlen. unfold PAGE_SIZE in *.
  assert (Hb4 : 4096 <= Limine.base e) by (Z.to_euclidean_division_equations; lia).
  revert j pi. induction fuel as [|fuel IH]; intros j pi Hj Hjl Hpi Hfuel Hall.
  - assert (j <= Limine.length e / 4096) by (apply Z.div_le_lower_bound; lia). lia.
  - cbn [scan_region]. unfold PAGE_SIZE.
    destruct (Z.leb_spec (4096 * (j + 1)) (Limine.length e)) as [Hle|Hgt].
    + assert (Hj1 : j + 1 <= Limine.length e / 4096)
        by (apply Z.div_le_lower_bound; lia).
      assert (Hget : PageBitmap.get m pi = Some true) by (apply Hall; lia).
      pose proof (get_in_span _ _ _ Hpi Hget) as Hspan.
      rewrite Hget.
      replace (u64 (4096 * (j + 1) + 4096)) with (4096 * (j + 1 + 1))
        by (rewrite u64_small; lia).
      rewrite (u64_small (pi + 1)) by lia.
      rewrite IH; [do 2 f_equal; lia|lia|lia|lia|lia|].
      intros i Hi. apply Hall. lia.
    + replace (Limine.length e / 4096) with j
        by (apply Z.div_unique with (r := Limine.length e - 4096 * j); lia).
      do 2 f_equal. lia.
Qed.

(** The inner loop, without wrap-around of [page_index]: it ends past the
    region without a candidate, or with a candidate other than 0. *)
Lemma scan_region_exit (fuel : nat) (m : list Z) (e : Limine.memmap_entry)
    (j pi pa0 pi' pa' : Z) :
  region_ok e = true -> 64 * Z.of_nat (length m) < 2 ^ 64 ->
  0 <= j -> PAGE_SIZE * j <= Limine.length e -> 0 <= pi ->
  scan_region fuel m e (PAGE_SIZE * (j + 1)) pi pa0 = Some (pi', pa') ->
  (pa' = pa0 /\ pi' = pi + (Limine.length e / PAGE_SIZE - j))
  \/ (pa' <> 0 /\ pi <= pi' < pi + (Limine.length e / PAGE_SIZE - j)).
Proof.
  intros (Hb & Hl & Hb0 & Hl0 & Hend)%region_ok_inv Hlen. unfold PAGE_SIZE in *.
  assert (Hb4 : 4096 <= Limine.base e) by (Z.to_euclidean_division_equations; lia).
  revert j pi. induction fuel as [|fuel IH]; intros j pi Hj Hjl Hpi;
    cbn [scan_region]; [discriminate|]. unfold PAGE_SIZE.
  destruct (Z.leb_spec (4096 * (j + 1)) (Limine.length e)) as [Hle|Hgt].
  - destruct (PageBitmap.get m pi) as [[|]|] eqn:Hget; [| |discriminate].
    + pose proof (get_in_span _ _ _ Hpi Hget) as Hspan.
      replace (u64 (4096 * (j + 1) + 4096)) with (4096 * (j + 1 + 1))
        by (rewrite u64_small; lia).
      rewrite (u64_small (pi + 1)) by lia.
      intros H. apply IH in H; [|lia|lia|lia].
      destruct H as [[-> ->]|[Hne Hin]];
        [left; split; [reflexivity|lia] | right; split; [exact Hne|lia]].
    + intros [= <- <-]. right. rewrite u64_small by lia.
      assert (j + 1 <= Limine.length e / 4096) by (apply Z.div_le_lower_bound; lia).
      lia.
  - intros [= <- <-]. left. split; [reflexivity|].
    replace (Limine.length e / 4096) with j
      by (apply Z.div_unique with (r := Limine.length e - 4096 * j); lia).
    lia.
Qed.

Lemma scan_entries_all_set (m : list Z) (mm : list Limine.memmap_entry) (pi : Z) :
  well_formed mm = true -> 64 * Z.of_nat (length m) < 2 ^ 64 -> 0 <= pi ->
  (forall i, pi <= i < pi + frames_in mm -> PageBitmap.get m i = Some true) ->
  scan_entries m mm pi 0 = Some (pi + frames_in mm, 0).
Proof.
  intros Hwf Hlen. revert pi Hwf.
  induction mm as [|e rest IH]; intros pi Hwf Hpi Hall;
    cbn [scan_entries frames_in fold_right] in *.
  - do 2 f_equal. lia.
  - fold (frames_in rest) in *.
    apply well_formed_cons in Hwf as (Hrest & He).
    pose proof (frames_in_nonneg rest Hrest) as Hfr.
    destruct (usable e); [|apply IH; assumption].
    destruct (He eq_refl) as [Hok _].
    pose proof (region_ok_inv e Hok) as (_ & _ & _ & Hl & _).
    assert (H4 : 0 < PAGE_SIZE) by (unfold PAGE_SIZE; lia).
    pose proof (Z.div_pos (Limine.length e) PAGE_SIZE Hl H4) as Hn.
    assert (Hfuel : Limine.length e / PAGE_SIZE - 0 < Z.of_nat (scan_fuel m)).
    { unfold scan_fuel.
      destruct (Z.eq_dec (Limine.length e / PAGE_SIZE) 0) as [->|Hpos]; [lia|].
      assert (Hlast : PageBitmap.get m (pi + Limine.length e / PAGE_SIZE - 1) = Some true)
        by (apply Hall; lia).
      apply get_in_span in Hlast; lia. }
    pose proof (scan_region_all_set (scan_fuel m) m e 0 pi 0 Hok Hlen
                  (Z.le_refl 0)) as Hscan.
    change (PAGE_SIZE * (0 + 1)) with PAGE_SIZE in Hscan.
    rewrite Hscan; [|unfold PAGE_SIZE; lia|exact Hpi|exact Hfuel|intros i Hi; apply Hall; lia].
    rewrite Z.sub_0_r. cbn [Z.eqb negb].
    rewrite IH; [do 2 f_equal; lia|exact Hrest|lia|intros i Hi; apply Hall; lia].
Qed.

Lemma scan_entries_exit (m : list Z) (mm : list Limine.memmap_entry) (pi pi' : Z) :
  well_formed mm = true -> 64 * Z.of_nat (length m) < 2 ^ 64 -> 0 <= pi ->
  scan_entries m mm pi 0 = Some (pi', 0) -> pi' = pi + frames_in mm.
Proof.
  intros Hwf Hlen. revert pi Hwf.
  induction mm as [|e rest IH]; intros pi Hwf Hpi;
    cbn [scan_entries frames_in fold_right].
  - intros [= <-]. lia.
  - fold (frames_in rest).
    apply well_formed_cons in Hwf as (Hrest & He).
    destruct (usable e); [|apply IH; assumption].
    destruct (He eq_refl) as [Hok _].
    pose proof (region_ok_inv e Hok) as (_ & _ & _ & Hl & _).
    assert (H4 : 0 < PAGE_SIZE) by (unfold PAGE_SIZE; lia).
    pose proof (Z.div_pos (Limine.length e) PAGE_SIZE Hl H4) as Hn.
    destruct (scan_region (scan_fuel m) m e PAGE_SIZE pi 0) as [[pi1 pa1]|] eqn:Hscan;
      [|discriminate].
    change PAGE_SIZE with (PAGE_SIZE * (0 + 1)) in Hscan at 1.
    apply scan_region_exit in Hscan; [|assumption|assumption|lia|unfold PAGE_SIZE; lia|assumption].
    destruct Hscan as [[-> ->]|[Hne _]].
    + cbn [Z.eqb negb]. intros H. apply IH in H; [lia|exact Hrest|lia].
    + destruct (Z.eqb_spec pa1 0) as [->|_]; [contradiction|].
      cbn [negb]. intros [= _ ->]. contradiction.
Qed.

(** Out of memory: over a well-formed memory map, [allocate_page] halts, in
    the state it was called in, exactly when the bit of every frame of the
    usable regions reads set. *)
Theorem allocate_page_out_of_memory (req : Limine.requests)
    (mm : list Limine.memmap_entry) (s : kstate) :
  Limine.memmap_response req = Some mm ->
  well_formed mm = true ->
  64 * Z.of_nat (length (bitmap s)) < 2 ^ 64 ->
  (allocate_page req s = Halted s
   <-> forall j, 0 <= j < frames_in mm -> PageBitmap.get (bitmap s) j = Some true).
Proof.
  intros Hmm Hwf Hlen. unfold allocate_page. rewrite Hmm. split.
  - destruct (scan_entries (bitmap s) mm 0 0) as [[pi pa]|] eqn:Hscan;
      cbn [allocate_found]; [|discriminate].
    destruct (Z.eqb_spec pa 0) as [->|_].
    + intros _ j Hj.
      pose proof (scan_entries_exit _ _ _ _ Hwf Hlen (Z.le_refl 0) Hscan) as ->.
      destruct (scan_entries_first_fit _ _ _ _ _ Hlen (Z.le_refl 0) Hscan)
        as (_ & Hbelow & _).
      apply Hbelow. lia.
    + destruct (PageBitmap.set (bitmap s) pi true); discriminate.
  - intros Hall.
    rewrite (scan_entries_all_set (bitmap s) mm 0 Hwf Hlen (Z.le_refl 0)).
    + reflexivity.
    + intros i Hi. apply Hall. lia.
Qed.

Lemma allocate_page_out_of_memory_witness :
  allocate_page
    (Limine.Requests (Some [Limine.Entry 0x100000 (4 * PAGE_SIZE) Limine.USABLE])
                     (Some higher_half))
    (KState higher_half [15])
  = Halted (KState higher_half [15]).
Proof.
  apply (allocate_page_out_of_memory
           (Limine.Requests (Some [Limine.Entry 0x100000 (4 * PAGE_SIZE) Limine.USABLE])
                            (Some higher_half))
           [Limine.Entry 0x100000 (4 * PAGE_SIZE) Limine.USABLE]
           (KState higher_half [15]) eq_refl eq_refl eq_refl).
  intros j Hj. change (0 <= j < 4) in Hj.
  assert (Hcases : j = 0 \/ j = 1 \/ j = 2 \/ j = 3) by lia.
  destruct Hcases as [-> | [-> | [-> | ->]]]; reflexivity.
Defined.

(** Over a well-formed memory map the frame [allocate_page] marks is the
    lowest frame index whose bit reads clear. *)
Lemma allocate_page_lowest (req : Limine.requests) (mm : list Limine.memmap_entry)
    (s s1 : kstate) (q : Z) :
  Limine.memmap_response req = Some mm ->
  well_formed mm = true ->
  hhdm_ok (hhdm_base s) = true ->
  64 * Z.of_nat (length (bitmap s)) < 2 ^ 64 ->
  allocate_page req s = Ret q s1 ->
  forall j, 0 <= j < frame_index mm (virtual_to_physical s q) ->
    PageBitmap.get (bitmap s) j = Some true.
Proof.
  intros Hmm Hwf Hh Hlen Halloc.
  destruct (allocate_page_frame _ _ _ _ _ Hmm Hwf Hh Halloc)
    as (_ & _ & _ & _ & Hclear & Hset & _).
  destruct (allocate_page_Ret _ _ _ _ Halloc)
    as (mm' & pi & pa & m1 & Hmm' & Hscan & Hne & Hset' & _ & ->).
  cbn [bitmap] in Hset.
  destruct (scan_entries_first_fit _ _ _ _ _ Hlen (Z.le_refl 0) Hscan)
    as (Hpi & Hbelow & Hcase).
  destruct Hcase as [Hzero|Hpiclear]; [contradiction|].
  destruct (Z.eq_dec (frame_index mm (virtual_to_physical s q)) pi) as [->|Hdiff].
  - intros j Hj. apply Hbelow. exact Hj.
  - exfalso.
    pose proof (find_page_nonneg mm (virtual_to_physical s q) 0 (Z.le_refl 0)) as Hfi.
    fold (frame_index mm (virtual_to_physical s q)) in Hfi.
    pose proof (get_set _ _ _ _ Hset') as Hafter.
    rewrite (get_set_other _ _ _ _ _ Hfi Hpi Hdiff Hset) in Hafter.
    rewrite Hpiclear in Hafter. discriminate.
Qed.

(** A freed frame is found again: over a well-formed memory map, the
    [allocate_page] that follows a [free_page] returns a frame whose index
    is not above that of the frame just freed. *)
Theorem allocate_after_free_not_above (req : Limine.requests)
    (mm : list Limine.memmap_entry) (s s1 s2 : kstate) (p q : Z) :
  Limine.memmap_response req = Some mm ->
  well_formed mm = true ->
  hhdm_ok (hhdm_base s) = true ->
  64 * Z.of_nat (length (bitmap s)) < 2 ^ 64 ->
  free_page req p s = Ret tt s1 ->
  allocate_page req s1 = Ret q s2 ->
  frame_index mm (virtual_to_physical s q) <= frame_index mm (virtual_to_physical s p).
Proof.
  intros Hmm Hwf Hh Hlen Hfree Halloc.
  destruct (free_page_frame _ _ _ _ _ Hmm Hfree) as (Hhh & Hl1 & Hfreed & _).
  destruct (Z.le_gt_cases (frame_index mm (virtual_to_physical s q))
              (frame_index mm (virtual_to_physical s p))) as [Hle|Hgt]; [exact Hle|].
  exfalso.
  pose proof (find_page_nonneg mm (virtual_to_physical s p) 0 (Z.le_refl 0)) as Hfi.
  fold (frame_index mm (virtual_to_physical s p)) in Hfi.
  assert (Hh1 : hhdm_ok (hhdm_base s1) = true) by (rewrite Hhh; exact Hh).
  assert (Hlen1 : 64 * Z.of_nat (length (bitmap s1)) < 2 ^ 64) by (rewrite Hl1; exact Hlen).
  pose proof (allocate_page_lowest _ _ _ _ _ Hmm Hwf Hh1 Hlen1 Halloc
                (frame_index mm (virtual_to_physical s p))) as Hlow.
  rewrite (virtual_to_physical_hhdm s1 s q Hhh) in Hlow.
  rewrite Hlow in Hfreed by lia. discriminate.
Qed.

Lemma allocate_after_free_not_above_witness :
  frame_index
    [Limine.Entry 0 0x100000 Limine.RESERVED; region64;
     Limine.Entry 0x140000 0x10000 Limine.KERNEL_AND_MODULES]
    (virtual_to_physical (KState higher_half [5]) (higher_half + 0x101000))
  <= frame_index
       [Limine.Entry 0 0x100000 Limine.RESERVED; region64;
        Limine.Entry 0x140000 0x10000 Limine.KERNEL_AND_MODULES]
       (virtual_to_physical (KState higher_half [5]) (higher_half + 0x102000)).
Proof.
  apply (allocate_after_free_not_above boot64 _ (KState higher_half [5])
           (KState higher_half [1]) (KState higher_half [3])
           (higher_half + 0x102000) (higher_half + 0x101000)
           eq_refl eq_refl eq_refl eq_refl eq_refl eq_refl).
Defined.

End OutOfMemory.

(** ** Signedness traits *)

Section SignednessTraits.

Lemma is_same_spec (t v : Traits.integral) : Traits.is_same t v = true <-> t = v.
Proof. destruct t, v; cbn; split; congruence. Qed.

(** The signedness traits agree with each other: [to_signed] gives a type
    [is_signed] accepts and [to_unsigned] one [is_unsigned] accepts, each
    conversion absorbs the other, and converting away from a type's
    signedness and back gives the type again. *)
Theorem signedness_traits_agree (t : Traits.integral) :
  Traits.is_signed (Traits.to_signed t) = true
  /\ Traits.is_unsigned (Traits.to_unsigned t) = true
  /\ Traits.to_signed (Traits.to_unsigned t) = Traits.to_signed t
  /\ Traits.to_unsigned (Traits.to_signed t) = Traits.to_unsigned t
  /\ (if Traits.is_signed t then Traits.to_signed (Traits.to_unsigned t)
      else Traits.to_unsigned (Traits.to_signed t)) = t
  /\ Traits.is_same (Traits.to_signed t) (Traits.to_unsigned t) = false.
Proof. destruct t; cbn; repeat split; reflexivity. Qed.

End SignednessTraits.

(** ** The framebuffer gradient *)

Section Gradient.

Lemma land_low_byte (a : Z) : Z.land a 0xFF = a mod 2 ^ 8.
Proof. change 0xFF with (Z.ones 8). apply Z.land_ones. lia. Qed.

Lemma blue_range (x y : Z) : 128 <= Framebuffer.blue x y <= 255.
Proof.
  unfold Framebuffer.blue, Framebuffer.u8.
  rewrite land_low_byte.
  set (v := Z.shiftr _ 8 mod 2 ^ 8).
  assert (Hv : 0 <= v < 2 ^ 8) by (apply Z.mod_pos_bound; lia).
  assert (Hh : 0 <= v / 2 <= 127) by (Z.to_euclidean_division_equations; lia).
  rewrite (u64_small (255 - v / 2)) by lia.
  rewrite Z.mod_small by lia. lia.
Qed.

Lemma channels_packed :
  Forall (λ b, Z.lor (Z.lor (Z.shiftl (b / 2) 16) (Z.shiftl (b / 2) 8)) b
               = 65536 * (b / 2) + 256 * (b / 2) + b)
         (seqZ 128 128).
Proof. apply (bool_decide_unpack _). vm_compute. exact I. Qed.

(** Every pixel [framebuffer::init] writes, whatever the coordinates: blue is
    between 128 and 255, red and green are half of it, and the colour packs
    the three channels as 0x00RRGGBB, the top byte 0. *)
Theorem gradient_color_channels (x y : Z) :
  128 <= Framebuffer.blue x y <= 255
  /\ Framebuffer.red x y = Framebuffer.blue x y / 2
  /\ Framebuffer.green x y = Framebuffer.blue x y / 2
  /\ Framebuffer.color x y
     = 65536 * Framebuffer.red x y + 256 * Framebuffer.green x y
       + Framebuffer.blue x y
  /\ Framebuffer.color x y < 2 ^ 24.
Proof.
  pose proof (blue_range x y) as Hb.
  assert (Hhalf : Framebuffer.u8 (Framebuffer.blue x y / 2) = Framebuffer.blue x y / 2).
  { unfold Framebuffer.u8. apply Z.mod_small. Z.to_euclidean_division_equations; lia. }
  assert (Hpack : Z.lor (Z.lor (Z.shiftl (Framebuffer.blue x y / 2) 16)
                               (Z.shiftl (Framebuffer.blue x y / 2) 8))
                        (Framebuffer.blue x y)
                  = 65536 * (Framebuffer.blue x y / 2)
                    + 256 * (Framebuffer.blue x y / 2) + Framebuffer.blue x y).
  { pose proof channels_packed as Hall. rewrite Forall_forall in Hall.
    apply Hall. apply elem_of_seqZ. lia. }
  unfold Framebuffer.color, Framebuffer.red, Framebuffer.green.
  rewrite Hhalf, Hpack. unfold Framebuffer.u32.
  assert (Hq : 64 <= Framebuffer.blue x y / 2 <= 127)
    by (Z.to_euclidean_division_equations; lia).
  rewrite Z.mod_small by lia.
  repeat split; lia.
Qed.

End Gradient.

(** ** The number of free frames *)

Section FrameCount.

Lemma filter_length_ext (P Q : Z -> Prop)
    `{!∀ x, Decision (P x)} `{!∀ x, Decision (Q x)} (l : list Z) :
  (forall j, j ∈ l -> (P j <-> Q j)) ->
  length (filter P l) = length (filter Q l).
Proof.
  induction l as [|a l IH]; intros Hl; [reflexivity|].
  assert (Ha : P a <-> Q a) by (apply Hl, elem_of_cons; left; reflexivity).
  assert (Hrest : forall j, j ∈ l -> (P j <-> Q j))
    by (intros j Hj; apply Hl, elem_of_cons; right; exact Hj).
  rewrite !filter_cons.
  destruct (decide (P a)), (decide (Q a)); cbn [length]; try tauto;
    rewrite (IH Hrest); reflexivity.
Qed.

(** Two predicates that differ at one element of a list without
    duplicates. *)
Lemma filter_length_flip (P Q : Z -> Prop)
    `{!∀ x, Decision (P x)} `{!∀ x, Decision (Q x)} (l : list Z) (x : Z) :
  NoDup l -> x ∈ l -> P x -> ~ Q x ->
  (forall j, j ∈ l -> j <> x -> (P j <-> Q j)) ->
  length (filter P l) = S (length (filter Q l)).
Proof.
  induction l as [|a l IH]; intros Hnd Hx HP HQ Hl.
  - apply elem_of_nil in Hx. contradiction.
  - apply NoDup_cons in Hnd as [Ha Hnd].
    rewrite !filter_cons.
    destruct (decide (a = x)) as [->|Hax].
    + destruct (decide (P x)), (decide (Q x)); try contradiction.
      cbn [length]. f_equal. apply filter_length_ext.
      intros j Hj. apply Hl; [apply elem_of_cons; right; exact Hj|].
      intros ->. contradiction.
    + apply elem_of_cons in Hx as [->|Hx]; [contradiction|].
      assert (Hpa : P a <-> Q a) by (apply Hl; [apply elem_of_cons; left; reflexivity|exact Hax]).
      assert (Hrest : forall j, j ∈ l -> j <> x -> (P j <-> Q j))
        by (intros j Hj; apply Hl, elem_of_cons; right; exact Hj).
      specialize (IH Hnd Hx HP HQ Hrest).
      destruct (decide (P a)), (decide (Q a)); cbn [length]; try tauto;
        rewrite IH; reflexivity.
Qed.

(** The candidate the loops of [allocate_page] end with is a frame of the
    memory map. *)
Lemma scan_entries_below (m : list Z) (mm : list Limine.memmap_entry)
    (pi pi' pa' : Z) :
  well_formed mm = true -> 64 * Z.of_nat (length m) < 2 ^ 64 -> 0 <= pi ->
  scan_entries m mm pi 0 = Some (pi', pa') -> pa' <> 0 ->
  pi <= pi' < pi + frames_in mm.
Proof.
  intros Hwf Hlen. revert pi Hwf.
  induction mm as [|e rest IH]; intros pi Hwf Hpi;
    cbn [scan_entries frames_in fold_right].
  - intros [= _ <-] Hne. contradiction.
  - fold (frames_in rest).
    apply well_formed_cons in Hwf as (Hrest & He).
    pose proof (frames_in_nonneg rest Hrest) as Hfr.
    destruct (usable e); [|apply IH; assumption].
    destruct (He eq_refl) as [Hok _].
    pose proof (region_ok_inv e Hok) as (_ & _ & _ & Hl & _).
    assert (H4 : 0 < PAGE_SIZE) by (unfold PAGE_SIZE; lia).
    pose proof (Z.div_pos (Limine.length e) PAGE_SIZE Hl H4) as Hn.
    destruct (scan_region (scan_fuel m) m e PAGE_SIZE pi 0) as [[pi1 pa1]|] eqn:Hscan;
      [|discriminate].
    change PAGE_SIZE with (PAGE_SIZE * (0 + 1)) in Hscan at 1.
    apply scan_region_exit in Hscan; [|assumption|assumption|lia|unfold PAGE_SIZE; lia|assumption].
    destruct Hscan as [[-> ->]|[Hne1 Hin]].
    + cbn [Z.eqb negb]. intros H Hne. apply IH in H; [lia|exact Hrest|lia|exact Hne].
    + destruct (Z.eqb_spec pa1 0) as [->|_]; [contradiction|].
      cbn [negb]. intros [= <- <-] _. lia.
Qed.

(** The frame index [free_page] computes for an address inside a usable
    region is a frame of the memory map. *)
Lemma find_page_below (mm : list Limine.memmap_entry) (pa i : Z) :
  well_formed mm = true -> 0 <= i -> i + frames_in mm < 2 ^ 64 ->
  (find_page mm pa i).2 = true ->
  i <= (find_page mm pa i).1 < i + frames_in mm.
Proof.
  revert i. induction mm as [|e rest IH]; intros i Hwf Hi Hbound;
    cbn [find_page frames_in fold_right] in *; [discriminate|].
  fold (frames_in rest) in *.
  apply well_formed_cons in Hwf as (Hrest & He).
  pose proof (frames_in_nonneg rest Hrest) as Hfr.
  destruct (usable e); [|apply IH; assumption].
  destruct (He eq_refl) as [Hok _].
  pose proof (region_ok_inv e Hok) as (Hb & Hl & Hb0 & Hl0 & Hend).
  unfold PAGE_SIZE in *.
  assert (Hn : 0 <= Limine.length e / 4096) by (apply Z.div_pos; lia).
  rewrite (u64_small (Limine.base e + Limine.length e)) by lia.
  destruct (Z.leb_spec (Limine.base e) pa) as [Hlo|Hlo]; cbn [andb];
    [destruct (Z.ltb_spec pa (Limine.base e + Limine.length e)) as [Hhi|Hhi]|].
  - intros _. cbn [fst].
    rewrite (u64_small (pa - Limine.base e)) by lia.
    assert (Hq : 0 <= (pa - Limine.base e) / 4096 < Limine.length e / 4096).
    { split; [apply Z.div_pos; lia|].
      apply Z.div_lt_upper_bound; [lia|].
      replace (4096 * (Limine.length e / 4096)) with (Limine.length e)
        by (Z.to_euclidean_division_equations; lia).
      lia. }
    rewrite u64_small by lia. lia.
  - rewrite (u64_small (i + Limine.length e / 4096)) by lia.
    intros H. apply IH in H; [lia|exact Hrest|lia|lia].
  - rewrite (u64_small (i + Limine.length e / 4096)) by lia.
    intros H. apply IH in H; [lia|exact Hrest|lia|lia].
Qed.

(** Over a well-formed memory map every returning [allocate_page] lowers the
    number of frames that read free by exactly one. *)
Theorem allocate_page_takes_one_frame (req : Limine.requests)
    (mm : list Limine.memmap_entry) (s s1 : kstate) (p : Z) :
  Limine.memmap_response req = Some mm ->
  well_formed mm = true ->
  64 * Z.of_nat (length (bitmap s)) < 2 ^ 64 ->
  allocate_page req s = Ret p s1 ->
  free_frame_count mm s = S (free_frame_count mm s1).
Proof.
  intros Hmm Hwf Hlen Halloc.
  destruct (allocate_page_Ret _ _ _ _ Halloc)
    as (mm' & pi & pa & m1 & Hmm' & Hscan & Hne & Hset & _ & ->).
  rewrite Hmm in Hmm'. injection Hmm' as <-.
  pose proof (scan_entries_below _ _ _ _ _ Hwf Hlen (Z.le_refl 0) Hscan Hne) as Hpi.
  destruct (scan_entries_first_fit _ _ _ _ _ Hlen (Z.le_refl 0) Hscan)
    as (_ & _ & Hcase).
  destruct Hcase as [Hzero|Hclear]; [contradiction|].
  unfold free_frame_count. cbn [bitmap].
  apply (filter_length_flip _ _ _ pi).
  - apply NoDup_seqZ.
  - apply elem_of_seqZ. lia.
  - exact Hclear.
  - rewrite (get_set _ _ _ _ Hset). discriminate.
  - intros j Hj%elem_of_seqZ Hother.
    rewrite (get_set_other (bitmap s) m1 pi j true) by (try lia; exact Hset). reflexivity.
Qed.

Lemma allocate_page_takes_one_frame_witness :
  free_frame_count
    [Limine.Entry 0 0x100000 Limine.RESERVED; region64;
     Limine.Entry 0x140000 0x10000 Limine.KERNEL_AND_MODULES]
    (KState higher_half [7])
  = S (free_frame_count
         [Limine.Entry 0 0x100000 Limine.RESERVED; region64;
          Limine.Entry 0x140000 0x10000 Limine.KERNEL_AND_MODULES]
         (KState higher_half [15])).
Proof.
  apply (allocate_page_takes_one_frame boot64 _ (KState higher_half [7])
           (KState higher_half [15]) (higher_half + 0x103000)
           eq_refl eq_refl eq_refl eq_refl).
Defined.

(** Over a well-formed memory map a returning [free_page] raises the number
    of frames that read free by exactly one when the frame read allocated,
    and leaves it when the frame read free. *)
Theorem free_page_gives_one_frame (req : Limine.requests)
    (mm : list Limine.memmap_entry) (s s1 : kstate) (p : Z) :
  Limine.memmap_response req = Some mm ->
  well_formed mm = true ->
  frames_in mm < 2 ^ 64 ->
  free_page req p s = Ret tt s1 ->
  free_frame_count mm s1
  = match PageBitmap.get (bitmap s) (frame_index mm (virtual_to_physical s p)) with
    | Some true => S (free_frame_count mm s)
    | _ => free_frame_count mm s
    end.
Proof.
  intros Hmm Hwf Hframes Hfree.
  destruct (free_page_frame _ _ _ _ _ Hmm Hfree) as (_ & _ & Hafter & Hother).
  assert (Hin : 0 <= frame_index mm (virtual_to_physical s p) < frames_in mm).
  { unfold frame_index.
    apply (find_page_below mm (virtual_to_physical s p) 0 Hwf (Z.le_refl 0));
      [lia|].
    rewrite find_page_found.
    revert Hfree. unfold free_page. rewrite Hmm.
    destruct (negb (p mod PAGE_SIZE =? 0)); [discriminate|].
    rewrite <- (find_page_found mm (virtual_to_physical s p) 0).
    destruct (find_page mm (virtual_to_physical s p) 0) as [idx found].
    cbn [snd]. destruct found; [reflexivity|discriminate]. }
  unfold free_frame_count.
  destruct (PageBitmap.get (bitmap s) (frame_index mm (virtual_to_physical s p)))
    as [[|]|] eqn:Hbefore.
  - apply (filter_length_flip _ _ _ (frame_index mm (virtual_to_physical s p))).
    + apply NoDup_seqZ.
    + apply elem_of_seqZ. lia.
    + exact Hafter.
    + rewrite Hbefore. discriminate.
    + intros j Hj%elem_of_seqZ Hne. rewrite Hother by lia. reflexivity.
  - apply filter_length_ext. intros j Hj%elem_of_seqZ.
    destruct (Z.eq_dec j (frame_index mm (virtual_to_physical s p))) as [->|Hne].
    + rewrite Hafter, Hbefore. reflexivity.
    + rewrite Hother by lia. reflexivity.
  - exfalso. revert Hfree. unfold free_page. rewrite Hmm.
    destruct (negb (p mod PAGE_SIZE =? 0)); [discriminate|].
    fold (frame_index mm (virtual_to_physical s p)).
    destruct (find_page mm (virtual_to_physical s p) 0) as [idx found] eqn:Hfind.
    assert (Hidx : frame_index mm (virtual_to_physical s p) = idx)
      by (unfold frame_index; rewrite Hfind; reflexivity).
    rewrite Hidx in Hbefore.
    destruct (negb found); [discriminate|].
    destruct (PageBitmap.set (bitmap s) idx false) as [m1|] eqn:Hset; [|discriminate].
    intros _. revert Hset Hbefore. unfold PageBitmap.set, PageBitmap.get.
    destruct (shl_one_int (idx mod PageBitmap.bits_per_element)); [|discriminate].
    destruct (bitmap s !! Z.to_nat (idx / PageBitmap.bits_per_element)); discriminate.
Qed.

Lemma free_page_gives_one_frame_witness :
  free_frame_count
    [Limine.Entry 0 0x100000 Limine.RESERVED; region64;
     Limine.Entry 0x140000 0x10000 Limine.KERNEL_AND_MODULES]
    (KState higher_half [13])
  = match PageBitmap.get (bitmap (KState higher_half [15]))
            (frame_index
               [Limine.Entry 0 0x100000 Limine.RESERVED; region64;
                Limine.Entry 0x140000 0x10000 Limine.KERNEL_AND_MODULES]
               (virtual_to_physical (KState higher_half [15])
                  (higher_half + 0x101000))) with
    | Some true =>
        S (free_frame_count
             [Limine.Entry 0 0x100000 Limine.RESERVED; region64;
              Limine.Entry 0x140000 0x10000 Limine.KERNEL_AND_MODULES]
             (KState higher_half [15]))
    | _ =>
        free_frame_count
          [Limine.Entry 0 0x100000 Limine.RESERVED; region64;
           Limine.Entry 0x140000 0x10000 Limine.KERNEL_AND_MODULES]
          (KState higher_half [15])
    end.
Proof.
  apply (free_page_gives_one_frame boot64 _ (KState higher_half [15])
           (KState higher_half [13]) (higher_half + 0x101000)
           eq_refl eq_refl eq_refl eq_refl).
Defined.

End FrameCount.
